(** * imessage_bot.py: the message-processing pipeline

    A shallow embedding of [src/imessage_bot.py]: the sent-message
    fingerprint cache, the contact filter, the conversation store, the
    database reader and the main polling loop, with the properties of the
    specification stated over them.

    Conventions of the embedding.
    - Python [str] is [string], the UTF-8 bytes of the text. The builtins
      [hash], [str.strip] and [str.lower] are parameters of the process:
      nothing is assumed about them beyond what a statement says.
    - [time.time()] readings are rationals ([Q]); the clock, the HTTP
      backend, the [osascript] transport and the SQLite store are inputs
      of the functions that consult them.
    - the module-level globals and the local [last_rowid] of [main] form
      the record [state]; every function that mutates a global takes and
      returns the state.
    - [trace] is an instrumentation field: the chronological list of the
      externally visible actions of the loop. *)

From Stdlib Require Import Ascii String QArith Lqa.
From stdpp Require Import gmap strings list sorting.

Local Open Scope Z_scope.
Local Open Scope string_scope.
Local Open Scope list_scope.

(** ** Python string primitives *)

(** The two operations on [str] that the program uses and that are exact
    on UTF-8 bytes: ['+'] is one byte that occurs in no other character. *)
Module PyStr.

(** [s.lstrip('+')]: every leading ['+'] is removed. *)
Fixpoint lstrip_plus (s : string) : string :=
  match s with
  | EmptyString => EmptyString
  | String c r => if Ascii.eqb c "+" then lstrip_plus r else s
  end.

(** Truthiness of a [str]. *)
Definition truthy (s : string) : bool :=
  match s with EmptyString => false | _ => true end.

End PyStr.

(** Trimming and lower-casing of ASCII text. On a text whose characters
    outside ASCII are neither white space nor cased letters these are
    [str.strip] and [str.lower]; they stand for the two builtins in the
    sample processes of the worked examples, and nowhere else. *)
Module AsciiStr.

(** [str.isspace] on the ASCII range: TAB, LF, VT, FF, CR, FS, GS, RS, US
    and the space. *)
Definition isspace (c : ascii) : bool :=
  let n := nat_of_ascii c in
  ((9 <=? n)%nat && (n <=? 13)%nat) || ((28 <=? n)%nat && (n <=? 32)%nat).

Definition isupper (c : ascii) : bool :=
  let n := nat_of_ascii c in (65 <=? n)%nat && (n <=? 90)%nat.

Definition lower_char (c : ascii) : ascii :=
  if isupper c then ascii_of_nat (nat_of_ascii c + 32) else c.

Fixpoint lower (s : string) : string :=
  match s with
  | EmptyString => EmptyString
  | String c r => String (lower_char c) (lower r)
  end.

Fixpoint lstrip (s : string) : string :=
  match s with
  | EmptyString => EmptyString
  | String c r => if isspace c then lstrip r else s
  end.

Fixpoint rstrip (s : string) : string :=
  match s with
  | EmptyString => EmptyString
  | String c r =>
      match rstrip r with
      | EmptyString => if isspace c then EmptyString else String c EmptyString
      | r' => String c r'
      end
  end.

Definition strip (s : string) : string := rstrip (lstrip s).

End AsciiStr.

(** ** Data *)

(** A role-tagged turn: the dict [{"role": ..., "content": ...}]. *)
Inductive Role := System | User | Assistant.

Record turn := mkTurn { role : Role; content : string }.

(** One dict of the list returned by [get_recent_messages]. *)
Record msg := mkMsg {
  rowid : Z;
  text : string;
  is_from_me : Z;
  date : Z;
  sender : option string;
  chat_id : option string }.

(** The tables of [chat.db] that the two queries read. A [None] column is
    SQL NULL. *)
Record message_row := mkMessageRow {
  m_ROWID : Z;
  m_text : option string;
  m_is_from_me : Z;
  m_date : Z;
  m_handle_id : option Z }.

Record handle_row := mkHandleRow { h_ROWID : Z; h_id : option string }.

Record chat_message_join_row := mkJoinRow { j_chat_id : Z; j_message_id : Z }.

Record chat_row := mkChatRow { c_ROWID : Z; c_chat_identifier : option string }.

Record database := mkDatabase {
  message : list message_row;
  handle : list handle_row;
  chat_message_join : list chat_message_join_row;
  chat : list chat_row }.

(** What [requests.post] does: it returns a response or raises.
    [res_content] is the value of
    [response.json()["choices"][0]["message"]["content"]], [None] when
    evaluating that expression raises. *)
Inductive post_result :=
| Response (status_code : Z) (res_text : string) (res_content : option string)
| ConnectionError
| Timeout
| OtherException.

(** What [subprocess.run] does: it returns (whatever the exit status of
    [osascript]), or raises. *)
Inductive run_result := Returned | TimeoutExpired | RunException.

(** The visible actions of the loop, in the order they happen. The row
    ids are carried for the statements below. *)
Inductive event :=
| Marked (r : Z)       (* processed_messages.add(rowid) *)
| SkippedOwn (r : Z)   (* "Skipped our own message (loop prevention)" *)
| Ignored (r : Z)      (* "Ignored message from ... (not in allowed list)" *)
| ClearCmd (r : Z)     (* the /clear branch *)
| HelpCmd (r : Z)      (* the /help branch *)
| ChatMsg (r : Z)      (* "Thinking...", the call of get_ai_response *)
| Post (model : string) (messages : list turn)          (* requests.post *)
| Osascript (recipient : option string) (escaped : string). (* subprocess.run *)

(** The globals of the module and [last_rowid] of [main]. *)
Record state := mkState {
  conversation_history : gmap (option string) (list turn);
  processed_messages : gset Z;
  sent_messages : gset Z;
  sent_messages_with_time : list (Q * Z);
  last_rowid : Z;
  trace : list event }.

(** The answers of the outside world while one entry is handled: the
    clock read by [is_our_sent_message], the outcome of the backend call,
    the clock read by [track_sent_message] and the outcome of the send. *)
Record env := mkEnv {
  check_time : Q;
  post : post_result;
  send_time : Q;
  run : run_result }.

(** One iteration of [while True]: the store as the query finds it
    ([None]: the read raises) and the answers for the entries of the
    batch, by position. *)
Record cycle := mkCycle { snapshot : option database; answers : nat -> env }.

(** ** Configuration *)

Definition MAX_HISTORY : nat := 10.
Definition SENT_MESSAGE_EXPIRY : Q := 60.

Definition nl : string := String (ascii_of_nat 10) EmptyString.

Definition SYSTEM_PROMPT : turn :=
  mkTurn System "You are a helpful AI assistant responding via iMessage. Keep responses concise and conversational. Use emojis sparingly but appropriately.".

Definition CLEARED_TEXT : string := "✨ Conversation cleared! Starting fresh.".

Definition HELP_TEXT : string :=
  "🤖 iMessage AI Bot Commands:" +:+ nl +:+ nl +:+
  "/clear - Reset conversation history" +:+ nl +:+ "/help - Show this message".

Definition API_ERROR_TEXT : string := "Sorry, I couldn't process that. Please try again.".
Definition NOT_RUNNING_TEXT : string :=
  "⚠️ AI server is not running. Please start the Apple Intelligence API.".
Definition TOO_LONG_TEXT : string := "⏱️ Response took too long. Please try again.".
Definition WENT_WRONG_TEXT : string := "Something went wrong. Please try again.".

Definition Qltb (x y : Q) : bool :=
  match (x ?= y)%Q with Lt => true | _ => false end.

(** ** State updates *)

Definition set_history (k : option string) (h : list turn) (s : state) : state :=
  mkState (<[k := h]> (conversation_history s)) (processed_messages s)
          (sent_messages s) (sent_messages_with_time s) (last_rowid s) (trace s).

Definition set_sent (set : gset Z) (l : list (Q * Z)) (s : state) : state :=
  mkState (conversation_history s) (processed_messages s) set l
          (last_rowid s) (trace s).

Definition mark (r : Z) (s : state) : state :=
  mkState (conversation_history s) ({[r]} ∪ processed_messages s)
          (sent_messages s) (sent_messages_with_time s)
          (Z.max (last_rowid s) r) (trace s ++ [Marked r]).

Definition emit (e : event) (s : state) : state :=
  mkState (conversation_history s) (processed_messages s)
          (sent_messages s) (sent_messages_with_time s) (last_rowid s)
          (trace s ++ [e]).

(** [conversation_history[k]] of the [defaultdict(list)]. *)
Definition history (s : state) (k : option string) : list turn :=
  default [] (conversation_history s !! k).

(** ** The process *)

(** What is fixed for the life of the process: the builtins [hash]
    (seeded at interpreter start), [str.strip] and [str.lower], and the
    globals [ALLOWED_CONTACTS] and [MODEL] as [main] leaves them after
    reading the command line. *)
Class Process := mkProcess {
  hash : string -> Z;
  strip : string -> string;
  lower : string -> string;
  ALLOWED_CONTACTS : list string;
  MODEL : string }.

(** ** The contact filter as the specification words it

    Used only to compare with the code's filter below: trim, case-fold,
    strip one leading ['+'], then test membership; an absent or empty
    sender is never allowed by a non-empty list. *)

Module Spec.

Section Words.

Context {P : Process}.

Definition strip_one_plus (s : string) : string :=
  match s with
  | String c r => if Ascii.eqb c "+" then r else s
  | EmptyString => EmptyString
  end.

Definition normalize (s : string) : string :=
  strip_one_plus (lower (strip s)).

Definition isAllowed (senderId : option string) (allowList : list string) : bool :=
  match allowList with
  | [] => true
  | _ =>
      match senderId with
      | None => false
      | Some EmptyString => false
      | Some x => existsb (fun a => String.eqb (normalize x) (normalize a)) allowList
      end
  end.

End Words.

End Spec.

(** ** The program *)

Section Bot.

Context {P : Process}.

(** *** Sent-message cache *)

Definition clean_old_sent_messages (current_time : Q) (s : state) : state :=
  let kept :=
    List.filter (fun e => Qltb (current_time - fst e) SENT_MESSAGE_EXPIRY)
                (sent_messages_with_time s) in
  set_sent (list_to_set (map snd kept)) kept s.

Definition is_our_sent_message (current_time : Q) (message : string) (s : state)
  : state * bool :=
  let s := clean_old_sent_messages current_time s in
  let msg_hash := hash (lower (strip message)) in
  (s, bool_decide (msg_hash ∈ sent_messages s)).

Definition track_sent_message (now : Q) (message : string) (s : state) : state :=
  let msg_hash := hash (lower (strip message)) in
  set_sent ({[msg_hash]} ∪ sent_messages s)
           (sent_messages_with_time s ++ [(now, msg_hash)]) s.

(** *** Sending *)

(** [s.replace(c, rep)] for a one-character [c]. *)
Fixpoint replace (c : ascii) (rep : string) (s : string) : string :=
  match s with
  | EmptyString => EmptyString
  | String a r =>
      if Ascii.eqb a c then rep +:+ replace c rep r else String a (replace c rep r)
  end.

Definition backslash : ascii := ascii_of_nat 92.
Definition dquote : ascii := ascii_of_nat 34.

Definition escape (message : string) : string :=
  replace (ascii_of_nat 10) (String backslash "n")
    (replace dquote (String backslash (String dquote EmptyString))
       (replace backslash (String backslash (String backslash EmptyString)) message)).

Definition send_imessage (now : Q) (r : run_result)
    (recipient : option string) (message : string) (s : state) : state * bool :=
  let s := track_sent_message now message s in
  let escaped_message := escape message in
  let s := emit (Osascript recipient escaped_message) s in
  match r with
  | Returned => (s, true)
  | TimeoutExpired => (s, false)
  | RunException => (s, false)
  end.

(** *** Conversation store and backend call *)

(** [l[-n:]] for [n > 0]. *)
Definition last_n {A} (n : nat) (l : list A) : list A := drop (length l - n) l.

Definition append_user (h : list turn) (message : string) : list turn :=
  let h := h ++ [mkTurn User message] in
  if (MAX_HISTORY * 2 <? length h)%nat then last_n (MAX_HISTORY * 2) h else h.

Definition get_ai_response (r : post_result)
    (sender : option string) (message : string) (s : state) : state * string :=
  let s := set_history sender (append_user (history s sender) message) s in
  let messages := [SYSTEM_PROMPT] ++ history s sender in
  let s := emit (Post MODEL messages) s in
  match r with
  | Response status_code _ res_content =>
      if (status_code =? 200)%Z then
        match res_content with
        | Some ai_response =>
            (set_history sender (history s sender ++ [mkTurn Assistant ai_response]) s,
             ai_response)
        | None => (s, WENT_WRONG_TEXT)
        end
      else (s, API_ERROR_TEXT)
  | ConnectionError => (s, NOT_RUNNING_TEXT)
  | Timeout => (s, TOO_LONG_TEXT)
  | OtherException => (s, WENT_WRONG_TEXT)
  end.

(** *** Reading the store *)

(** Python's [a or b] on two nullable strings. *)
Definition str_or (a b : option string) : option string :=
  match a with
  | Some x => if PyStr.truthy x then a else b
  | None => b
  end.

(** The rows a LEFT JOIN pairs with one row of the left side. *)
Definition left_join {A} (on : A -> bool) (table : list A) : list (option A) :=
  match List.filter on table with
  | [] => [None]
  | rows => map Some rows
  end.

Definition joined (db : database)
  : list (message_row * option handle_row * option chat_row) :=
  m ← message db;
  h ← left_join (fun h => bool_decide (m_handle_id m = Some (h_ROWID h))) (handle db);
  j ← left_join (fun j => (j_message_id j =? m_ROWID m)%Z) (chat_message_join db);
  c ← match j with
      | Some j => left_join (fun c => (c_ROWID c =? j_chat_id j)%Z) (chat db)
      | None => [None]
      end;
  [(m, h, c)].

Definition where_clause (since_rowid : Z)
    (row : message_row * option handle_row * option chat_row) : bool :=
  let m := row.1.1 in
  (since_rowid <? m_ROWID m)%Z
  && match m_text m with Some t => PyStr.truthy t | None => false end
  && (m_is_from_me m =? 0)%Z.

Definition row_le (a b : message_row * option handle_row * option chat_row) : Prop :=
  (m_ROWID a.1.1 ≤ m_ROWID b.1.1)%Z.

#[local] Instance row_le_dec a b : Decision (row_le a b) := Z_le_dec _ _.

Definition to_msg (row : message_row * option handle_row * option chat_row) : msg :=
  let '(m, h, c) := row in
  let row4 := h ≫= h_id in
  let row5 := c ≫= c_chat_identifier in
  mkMsg (m_ROWID m) (default EmptyString (m_text m)) (m_is_from_me m) (m_date m)
        (str_or row4 row5) row5.

(** The query of [get_recent_messages]: WHERE, ORDER BY m.ROWID ASC (rows
    of one ROWID in the order the join gives them), LIMIT 50. A failed
    read gives the empty list. *)
Definition get_recent_messages (db : option database) (since_rowid : Z) : list msg :=
  match db with
  | Some db =>
      map to_msg
        (take 50 (merge_sort row_le (List.filter (where_clause since_rowid) (joined db))))
  | None => []
  end.

(** [SELECT MAX(ROWID) FROM message]: NULL on an empty table. *)
Definition max_rowid (rows : list message_row) : option Z :=
  foldr (fun m acc => Some (match acc with Some x => Z.max (m_ROWID m) x | None => m_ROWID m end))
        None rows.

Definition get_latest_rowid (db : option database) : Z :=
  match db with
  | Some db =>
      match max_rowid (message db) with
      | Some r => if (r =? 0)%Z then 0 else r
      | None => 0
      end
  | None => 0
  end.

(** *** The main loop *)

(** Lines 358-369: the [for allowed in ALLOWED_CONTACTS] loop with its
    [break]. *)
Fixpoint match_allowed (sender_normalized sender_no_plus : string)
    (contacts : list string) : bool :=
  match contacts with
  | [] => false
  | allowed :: rest =>
      let allowed_normalized := lower (strip allowed) in
      let allowed_no_plus := PyStr.lstrip_plus allowed_normalized in
      if String.eqb sender_normalized allowed_normalized
         || String.eqb sender_no_plus allowed_no_plus
      then true
      else match_allowed sender_normalized sender_no_plus rest
  end.

Definition is_allowed (contacts : list string) (sender : option string) : bool :=
  let sender_normalized :=
    match sender with
    | Some x => if PyStr.truthy x then lower (strip x) else EmptyString
    | None => EmptyString
    end in
  let sender_no_plus := PyStr.lstrip_plus sender_normalized in
  match_allowed sender_normalized sender_no_plus contacts.

(** Lines 357-373: does the entry get past the contact filter? *)
Definition passes_filter (contacts : list string) (sender : option string) : bool :=
  match contacts with
  | [] => true
  | _ => is_allowed contacts sender
  end.

(** Lines 378-401: the command tests and the chat path. *)
Definition respond (e : env) (m : msg) (s : state) : state :=
  if String.eqb (lower (strip (text m))) "/clear" then
    let s := set_history (sender m) [] s in
    let s := emit (ClearCmd (rowid m)) s in
    fst (send_imessage (send_time e) (run e) (sender m) CLEARED_TEXT s)
  else if String.eqb (lower (strip (text m))) "/help" then
    let s := emit (HelpCmd (rowid m)) s in
    fst (send_imessage (send_time e) (run e) (sender m) HELP_TEXT s)
  else
    let s := emit (ChatMsg (rowid m)) s in
    let '(s, ai_response) := get_ai_response (post e) (sender m) (text m) s in
    fst (send_imessage (send_time e) (run e) (sender m) ai_response s).

(** The body of [for msg in new_messages]. *)
Definition process_message (e : env) (m : msg) (s : state) : state :=
  if bool_decide (rowid m ∈ processed_messages s) then s
  else
    let s := mark (rowid m) s in
    let '(s, ours) := is_our_sent_message (check_time e) (text m) s in
    if ours then emit (SkippedOwn (rowid m)) s
    else if negb (passes_filter ALLOWED_CONTACTS (sender m)) then emit (Ignored (rowid m)) s
    else respond e m s.

Fixpoint process_batch (es : nat -> env) (i : nat) (batch : list msg) (s : state)
  : state :=
  match batch with
  | [] => s
  | m :: rest => process_batch es (S i) rest (process_message (es i) m s)
  end.

Definition poll_cycle (c : cycle) (s : state) : state :=
  let new_messages := get_recent_messages (snapshot c) (last_rowid s) in
  process_batch (answers c) 0 new_messages s.

Definition main_loop (cycles : list cycle) (s : state) : state :=
  foldl (fun s c => poll_cycle c s) s cycles.

(** The state on entry to [while True]; [db0] is the store as
    [get_latest_rowid] finds it. *)
Definition startup (db0 : option database) : state :=
  mkState ∅ ∅ ∅ [] (get_latest_rowid db0) [].

(** [main], run for the given cycles. *)
Definition main (db0 : option database) (cycles : list cycle) : state :=
  main_loop cycles (startup db0).

(** *** Vocabulary of the statements *)

(** The text as the cache and the command test see it. *)
Definition normalized (t : string) : string := lower (strip t).

(** A series of lookups, each at its own clock reading. *)
Definition lookups (qs : list (Q * string)) (s : state) : state :=
  foldl (fun s q => fst (is_our_sent_message (fst q) (snd q) s)) s qs.

(** The entry gets as far as the command test of line 379: it is new, it
    is not an echo of a reply and its sender passes the filter. *)
Definition reaches_dispatch (e : env) (m : msg) (s : state) : bool :=
  negb (bool_decide (rowid m ∈ processed_messages s))
  && negb (snd (is_our_sent_message (check_time e) (text m) s))
  && passes_filter ALLOWED_CONTACTS (sender m).

(** The turn that a backend outcome adds to the history: one assistant
    turn for a 200 response whose content can be read, nothing
    otherwise. *)
Definition assistant_turns (r : post_result) : list turn :=
  match r with
  | Response status_code _ (Some ai_response) =>
      if (status_code =? 200)%Z then [mkTurn Assistant ai_response] else []
  | _ => []
  end.

(** The state in which an entry that is new, no echo and allowed reaches
    the command tests: marked, and with the cache purged. *)
Definition dispatch_state (e : env) (m : msg) (s : state) : state :=
  clean_old_sent_messages (check_time e) (mark (rowid m) s).

(** Line 358: the sender as the contact filter takes it, an absent or
    empty one as the empty string. *)
Definition sender_form (sender : option string) : string :=
  match sender with
  | Some x => if PyStr.truthy x then normalized x else EmptyString
  | None => EmptyString
  end.

(** The form under which the contact filter compares identifiers: trimmed,
    lower-cased, without its leading ['+'] characters. *)
Definition canonical (x : string) : string := PyStr.lstrip_plus (normalized x).

(** The row ids handed to the command branches or to the backend. *)
Definition dispatched (tr : list event) : list Z :=
  tr ≫= fun ev =>
    match ev with
    | ClearCmd r | HelpCmd r | ChatMsg r => [r]
    | _ => []
    end.

(** The row ids marked as processed. *)
Definition marked (tr : list event) : list Z :=
  tr ≫= fun ev => match ev with Marked r => [r] | _ => [] end.

(** What the loop maintains: the watermark bounds the processed ids, and
    every dispatched id is a processed one, dispatched once. *)
Definition consistent (s : state) : Prop :=
  (forall r, r ∈ processed_messages s -> (r <= last_rowid s)%Z)
  /\ (forall r, r ∈ dispatched (trace s) -> r ∈ processed_messages s)
  /\ NoDup (dispatched (trace s)).

(** Connection refused, timeout, or a status other than 200. *)
Definition backend_failure (r : post_result) : bool :=
  match r with
  | Response status_code _ _ => negb (status_code =? 200)%Z
  | ConnectionError | Timeout => true
  | OtherException => false
  end.

Definition apology (r : post_result) : string :=
  match r with
  | Response _ _ _ => API_ERROR_TEXT
  | ConnectionError => NOT_RUNNING_TEXT
  | Timeout => TOO_LONG_TEXT
  | OtherException => WENT_WRONG_TEXT
  end.

End Bot.

(** ** Sample runs

    Concrete processes, stores and answers, used by the worked examples
    at the end of the file. *)

Module Sample.

(** A stand-in for the builtin [hash]. *)
Definition poly_hash (s : string) : Z :=
  fold_left (fun h c => (h * 31 + Z.of_nat (nat_of_ascii c)) mod 1000003)
            (list_ascii_of_string s) 7.

(** No allow-list: every sender is answered. *)
Definition open_bot : Process := mkProcess poly_hash AsciiStr.strip AsciiStr.lower [] "base".

(** The bot started with [--contact +14155551234]. *)
Definition one_contact : Process := mkProcess poly_hash AsciiStr.strip AsciiStr.lower ["+14155551234"] "base".

Definition friend : option string := Some "+14155551234".

(** A store with one handle and [n] inbound messages from it, of ROWIDs
    1 to [n], all of the text [t]. *)
Definition store (n : nat) (t : string) : database :=
  mkDatabase
    (map (fun i => mkMessageRow (Z.of_nat i) (Some t) 0 0 (Some 1)) (seq 1 n))
    [mkHandleRow 1 (Some "+14155551234")] [] [].

(** The backend answers every request with [reply]; the clock stands
    still and every send succeeds. *)
Definition replying (reply : string) : nat -> env :=
  fun _ => mkEnv 0 (Response 200 EmptyString (Some reply)) 0 Returned.

(** The backend is down. *)
Definition refusing : nat -> env :=
  fun _ => mkEnv 0 ConnectionError 0 Returned.

(** Ten exchanges with one sender: a history of twenty turns. *)
Definition after_ten_exchanges : state :=
  @main open_bot (Some (store 0 "hi"))
        [mkCycle (Some (store 10 "hi")) (replying "hello!")].

Definition entry (r : Z) (t : string) : msg := mkMsg r t 0 0 friend None.

End Sample.

(** ** Further vocabulary *)

(** What the three [replace] calls of [send_imessage] make of one
    character. *)
Definition escape_char (c : ascii) : string :=
  if Ascii.eqb c backslash then String backslash (String backslash EmptyString)
  else if Ascii.eqb c dquote then String backslash (String dquote EmptyString)
  else if Ascii.eqb c (ascii_of_nat 10) then String backslash "n"
  else String c EmptyString.

(** The characters of a string. *)
Fixpoint chars (s : string) : list ascii :=
  match s with
  | EmptyString => []
  | String c r => c :: chars r
  end.

(** The requests to the backend and the runs of [osascript] in a trace. *)
Definition posts (tr : list event) : list (list turn) :=
  tr ≫= fun ev => match ev with Post _ messages => [messages] | _ => [] end.

Definition sends (tr : list event) : list (option string * string) :=
  tr ≫= fun ev => match ev with Osascript to escaped => [(to, escaped)] | _ => [] end.

(** The row ids that went down the chat path. *)
Definition chats (tr : list event) : list Z :=
  tr ≫= fun ev => match ev with ChatMsg r => [r] | _ => [] end.

(** A row of [message] that the WHERE clause lets through. *)
Definition qualifies (since_rowid : Z) (m : message_row) : bool :=
  where_clause since_rowid (m, None, None).

(** The set of hashes and the timed list of the cache describe the same
    fingerprints. *)
Definition cache_agrees (s : state) : Prop :=
  forall h, h ∈ sent_messages s <-> exists ts, (ts, h) ∈ sent_messages_with_time s.

(** No stored history is longer than the cap plus the last reply, and
    none holds a system turn. *)
Definition histories_bounded (s : state) : Prop :=
  forall k, (length (history s k) <= MAX_HISTORY * 2 + 1)%nat
            /\ Forall (fun t => role t <> System) (history s k).

(** The marked ids of the trace are the processed ids, each marked
    once. *)
Definition marks_agree (s : state) : Prop :=
  (forall r, r ∈ processed_messages s <-> r ∈ marked (trace s))
  /\ NoDup (marked (trace s)).

(** The action sequences that handling one entry can add to the trace. *)
Inductive entry_actions (m : msg) : list event -> Prop :=
| actions_seen : entry_actions m []
| actions_echo : entry_actions m [Marked (rowid m); SkippedOwn (rowid m)]
| actions_ignored : entry_actions m [Marked (rowid m); Ignored (rowid m)]
| actions_clear :
    entry_actions m [Marked (rowid m); ClearCmd (rowid m);
                     Osascript (sender m) (escape CLEARED_TEXT)]
| actions_help :
    entry_actions m [Marked (rowid m); HelpCmd (rowid m);
                     Osascript (sender m) (escape HELP_TEXT)]
| actions_chat model messages reply :
    entry_actions m [Marked (rowid m); ChatMsg (rowid m); Post model messages;
                     Osascript (sender m) (escape reply)].

(** ** Properties of the sent-message cache *)

Section Properties.

Context {P : Process}.

Lemma Qltb_lt (x y : Q) : Qltb x y = true <-> (x < y)%Q.
Proof.
  unfold Qltb. rewrite Qlt_alt. destruct (x ?= y)%Q; split; congruence.
Qed.

Lemma clean_entries now s e :
  e ∈ sent_messages_with_time (clean_old_sent_messages now s) <->
  e ∈ sent_messages_with_time s /\ (now - fst e < SENT_MESSAGE_EXPIRY)%Q.
Proof.
  unfold clean_old_sent_messages; simpl.
  rewrite !list_elem_of_In, filter_In, Qltb_lt. tauto.
Qed.

(** A lookup answers yes exactly when an entry of the same hash is
    younger than the expiry. *)
Lemma is_our_sent_message_spec now message s :
  snd (is_our_sent_message now message s) = true <->
  exists ts, (ts, hash (normalized message)) ∈ sent_messages_with_time s
             /\ (now - ts < SENT_MESSAGE_EXPIRY)%Q.
Proof.
  unfold is_our_sent_message; simpl.
  rewrite bool_decide_eq_true, elem_of_list_to_set, list_elem_of_fmap.
  split.
  - intros [[ts h] [Hh Hin]]. simpl in Hh. subst h.
    apply list_elem_of_In, filter_In in Hin as [Hin Hlt].
    apply Qltb_lt in Hlt. exists ts. split; [by apply list_elem_of_In | exact Hlt].
  - intros [ts [Hin Hlt]]. exists (ts, hash (normalized message)).
    split; [reflexivity |].
    apply list_elem_of_In, filter_In. split; [by apply list_elem_of_In |].
    by apply Qltb_lt.
Qed.

Lemma lookups_entries qs s e :
  e ∈ sent_messages_with_time (lookups qs s) <->
  e ∈ sent_messages_with_time s
  /\ Forall (fun q => (fst q - fst e < SENT_MESSAGE_EXPIRY)%Q) qs.
Proof.
  revert s. induction qs as [|q qs IH]; intros s; simpl.
  - split; [intros H; split; [exact H | constructor] | tauto].
  - unfold lookups in *. simpl. rewrite IH.
    change (fst (is_our_sent_message (fst q) (snd q) s))
      with (clean_old_sent_messages (fst q) s).
    rewrite clean_entries, Forall_cons. tauto.
Qed.

Lemma track_entries now message s e :
  e ∈ sent_messages_with_time (track_sent_message now message s) <->
  e ∈ sent_messages_with_time s \/ e = (now, hash (normalized message)).
Proof.
  unfold track_sent_message; simpl. rewrite elem_of_app, list_elem_of_singleton.
  reflexivity.
Qed.

(** C2. A text recorded by [track_sent_message] at time [T], when no entry
    of the cache is later than [T], makes [is_our_sent_message] answer
    true for any text of the same normalized form asked at [T + delta]
    if and only if [delta] is below [SENT_MESSAGE_EXPIRY] (60 seconds);
    at [delta >= 60] the answer is false. Lookups made in between, none
    later than [T + delta], change nothing. *)
Theorem fingerprint_suppresses_iff_within_ttl
    (s : state) (T delta : Q) (t t' : string) (qs : list (Q * string)) :
  Forall (fun e => (fst e <= T)%Q) (sent_messages_with_time s) ->
  Forall (fun q => (fst q <= T + delta)%Q) qs ->
  normalized t' = normalized t ->
  snd (is_our_sent_message (T + delta) t'
         (lookups qs (track_sent_message T t s))) = true
  <-> (delta < SENT_MESSAGE_EXPIRY)%Q.
Proof.
  intros Hold Hqs Hnorm. rewrite is_our_sent_message_spec, Hnorm.
  unfold SENT_MESSAGE_EXPIRY. split.
  - intros [ts [Hin Hlt]].
    apply lookups_entries in Hin as [Hin _].
    apply track_entries in Hin as [Hin | Heq].
    + rewrite Forall_forall in Hold. apply Hold in Hin. simpl in Hin. lra.
    + inversion Heq; subst. lra.
  - intros Hlt. exists T. split; [| lra].
    apply lookups_entries. split.
    + apply track_entries. by right.
    + eapply Forall_impl; [exact Hqs |]. intros q Hq. simpl in *.
      unfold SENT_MESSAGE_EXPIRY. lra.
Qed.

(** ** Properties of [send_imessage] *)

Lemma send_imessage_state now r recipient message s :
  fst (send_imessage now r recipient message s)
  = emit (Osascript recipient (escape message)) (track_sent_message now message s).
Proof. unfold send_imessage. by destruct r. Qed.

Lemma send_imessage_result now r recipient message s :
  snd (send_imessage now r recipient message s)
  = match r with Returned => true | _ => false end.
Proof. unfold send_imessage. by destruct r. Qed.

(** C9. [send_imessage] records the fingerprint first: the state in which
    [osascript] is run is the one [track_sent_message] has produced, so
    whatever the transport does, also when it raises and the function
    returns false, the cache holds the entry and a lookup of a text of
    the same normalized form within the expiry answers true. *)
Theorem send_imessage_tracks_before_transport
    (now later : Q) (r : run_result) (recipient : option string)
    (message echo : string) (s : state) :
  normalized echo = normalized message ->
  (later - now < SENT_MESSAGE_EXPIRY)%Q ->
  let s' := fst (send_imessage now r recipient message s) in
  s' = emit (Osascript recipient (escape message))
            (track_sent_message now message s)
  /\ sent_messages_with_time s'
     = sent_messages_with_time s ++ [(now, hash (normalized message))]
  /\ hash (normalized message) ∈ sent_messages s'
  /\ (snd (send_imessage now r recipient message s) = false <-> r <> Returned)
  /\ snd (is_our_sent_message later echo s') = true.
Proof.
  intros Hnorm Hlt s'. subst s'. rewrite send_imessage_state, send_imessage_result.
  split; [reflexivity |]. split; [reflexivity |].
  split; [simpl; set_solver |].
  split; [destruct r; split; congruence |].
  apply is_our_sent_message_spec. exists now. split; [| exact Hlt].
  rewrite Hnorm. simpl. apply elem_of_app. right. by apply list_elem_of_singleton.
Qed.

(** ** Properties of the contact filter *)

Lemma match_allowed_spec sn contacts :
  match_allowed sn (PyStr.lstrip_plus sn) contacts = true <->
  exists a, a ∈ contacts /\ PyStr.lstrip_plus sn = canonical a.
Proof.
  induction contacts as [|a rest IH]; simpl.
  - split; [discriminate | intros [a [Ha _]]; by apply elem_of_nil in Ha].
  - destruct (String.eqb_spec sn (lower (strip a))) as [Heq | Hne]; simpl.
    + split; [intros _ | reflexivity].
      exists a. split; [apply list_elem_of_here | by rewrite Heq].
    + destruct (String.eqb_spec (PyStr.lstrip_plus sn)
                  (PyStr.lstrip_plus (lower (strip a)))) as [Heq | Hne'].
      * split; [intros _ | reflexivity].
        exists a. split; [apply list_elem_of_here | exact Heq].
      * rewrite IH. split.
        -- intros [b [Hb Hc]]. exists b. split; [by apply list_elem_of_further | exact Hc].
        -- intros [b [Hb Hc]]. apply elem_of_cons in Hb as [-> | Hb].
           ++ by destruct Hne'.
           ++ by exists b.
Qed.

Lemma is_allowed_spec contacts sender :
  is_allowed contacts sender = true <->
  exists a, a ∈ contacts /\ PyStr.lstrip_plus (sender_form sender) = canonical a.
Proof. apply match_allowed_spec. Qed.

Lemma canonical_plus y :
  normalized (String "+" y) = String "+" (normalized y) ->
  canonical (String "+" y) = canonical y.
Proof. unfold canonical. by intros ->. Qed.

(** C5 (as amended). The filter takes the sender (an absent or empty one
    as the empty string) and each entry of the allow-list trimmed by
    [str.strip], lower-cased by [str.lower] and without any of their
    leading ['+'] (all of them, not one only), and accepts when some
    entry has the same form as the sender. So, [str.strip] and
    [str.lower] leaving the empty string empty, every [x] is accepted
    against [[x]]; and for every [y] whose trimmed, lower-cased form is
    not changed by a ['+'] put in front (any [y] that does not begin
    with white space, such as a phone number), ["+" ++ y] is accepted
    against [[y]] and [y] against [["+" ++ y]]. *)
Theorem contact_filter_normalizes_all_leading_plus
    (contacts : list string) (sender : option string) (x y : string) :
  normalized EmptyString = EmptyString ->
  normalized (String "+" y) = String "+" (normalized y) ->
  (is_allowed contacts sender = true <->
     exists a, a ∈ contacts /\ PyStr.lstrip_plus (sender_form sender) = canonical a)
  /\ passes_filter [x] (Some x) = true
  /\ passes_filter [y] (Some (String "+" y)) = true
  /\ passes_filter [String "+" y] (Some y) = true.
Proof.
  intros Hempty Hplus. split; [apply is_allowed_spec |].
  assert (Hform : forall z, PyStr.lstrip_plus (sender_form (Some z)) = canonical z).
  { intros [|c z]; [| reflexivity]. unfold canonical. by rewrite Hempty. }
  unfold passes_filter. rewrite !is_allowed_spec.
  split; [| split].
  - exists x. split; [apply list_elem_of_here | apply Hform].
  - exists y. split; [apply list_elem_of_here |].
    rewrite Hform. by apply canonical_plus.
  - exists (String "+" y). split; [apply list_elem_of_here |].
    rewrite Hform. symmetry. by apply canonical_plus.
Qed.


(** ** Properties of the conversation store *)

Lemma history_set_history k h s : history (set_history k h s) k = h.
Proof. unfold history, set_history; simpl. by rewrite lookup_insert_eq. Qed.

Lemma history_set_history_ne k k' h s :
  k <> k' -> history (set_history k h s) k' = history s k'.
Proof.
  intros Hne. unfold history, set_history; simpl. by rewrite lookup_insert_ne.
Qed.

(** The user append keeps the last [2 * MAX_HISTORY] turns of the
    extended list. *)
Lemma append_user_drop h message :
  append_user h message
  = drop (length h + 1 - MAX_HISTORY * 2) (h ++ [mkTurn User message]).
Proof.
  unfold append_user, last_n. rewrite length_app. simpl length.
  destruct (Nat.ltb_spec (MAX_HISTORY * 2) (length h + 1)) as [Hlt | Hge].
  - reflexivity.
  - replace (length h + 1 - MAX_HISTORY * 2)%nat with 0%nat by lia. reflexivity.
Qed.

Lemma append_user_length h message :
  (length (append_user h message) <= MAX_HISTORY * 2)%nat.
Proof.
  rewrite append_user_drop, length_drop, length_app. simpl length. lia.
Qed.

Lemma append_user_suffix h message :
  append_user h message `suffix_of` (h ++ [mkTurn User message]).
Proof. rewrite append_user_drop. apply suffix_drop. Qed.

Lemma append_user_short h message :
  (length h < MAX_HISTORY * 2)%nat ->
  append_user h message = h ++ [mkTurn User message].
Proof.
  intros Hlt. rewrite append_user_drop.
  replace (length h + 1 - MAX_HISTORY * 2)%nat with 0%nat by lia. reflexivity.
Qed.

Lemma get_ai_response_history r sender message s :
  history (fst (get_ai_response r sender message s)) sender
  = append_user (history s sender) message ++ assistant_turns r.
Proof.
  unfold get_ai_response.
  destruct r as [code txt [ai|] | | |]; simpl;
    try destruct (code =? 200)%Z; simpl;
    rewrite ?history_set_history; unfold history; simpl;
    rewrite ?lookup_insert_eq; simpl; by rewrite ?app_nil_r.
Qed.

Lemma get_ai_response_history_ne r sender message s k :
  sender <> k ->
  history (fst (get_ai_response r sender message s)) k = history s k.
Proof.
  intros Hne. unfold get_ai_response.
  destruct r as [code txt [ai|] | | |]; simpl;
    try destruct (code =? 200)%Z; simpl;
    unfold history; simpl; by rewrite ?lookup_insert_ne.
Qed.

Lemma get_ai_response_trace r sender message s :
  trace (fst (get_ai_response r sender message s))
  = trace s ++ [Post MODEL (SYSTEM_PROMPT :: append_user (history s sender) message)].
Proof.
  unfold get_ai_response.
  destruct r as [code txt [ai|] | | |]; simpl;
    try destruct (code =? 200)%Z; simpl;
    unfold history; simpl; by rewrite ?lookup_insert_eq.
Qed.

Lemma get_ai_response_reply r sender message s :
  snd (get_ai_response r sender message s)
  = match r with
    | Response status_code _ (Some ai_response) =>
        if (status_code =? 200)%Z then ai_response else API_ERROR_TEXT
    | Response status_code _ None =>
        if (status_code =? 200)%Z then WENT_WRONG_TEXT else API_ERROR_TEXT
    | ConnectionError => NOT_RUNNING_TEXT
    | Timeout => TOO_LONG_TEXT
    | OtherException => WENT_WRONG_TEXT
    end.
Proof.
  unfold get_ai_response.
  destruct r as [code txt [ai|] | | |]; simpl;
    try destruct (code =? 200)%Z; reflexivity.
Qed.

(** The fields that [get_ai_response] leaves alone. *)
Lemma get_ai_response_frame r sender message s :
  let s' := fst (get_ai_response r sender message s) in
  processed_messages s' = processed_messages s
  /\ sent_messages s' = sent_messages s
  /\ sent_messages_with_time s' = sent_messages_with_time s
  /\ last_rowid s' = last_rowid s.
Proof.
  unfold get_ai_response.
  destruct r as [code txt [ai|] | | |]; simpl;
    try destruct (code =? 200)%Z; simpl; auto.
Qed.

(** ** One entry of the batch *)

Lemma process_message_seen e m s :
  rowid m ∈ processed_messages s -> process_message e m s = s.
Proof.
  intros Hin. unfold process_message. by rewrite bool_decide_eq_true_2.
Qed.

Lemma process_message_reached e m s :
  reaches_dispatch e m s = true ->
  process_message e m s = respond e m (dispatch_state e m s).
Proof.
  unfold reaches_dispatch, process_message.
  rewrite !andb_true_iff, !negb_true_iff. intros [[Hnew Hecho] Hpass].
  rewrite Hnew. simpl.
  change (sent_messages_with_time (mark (rowid m) s)) with (sent_messages_with_time s).
  unfold is_our_sent_message in Hecho. simpl in Hecho.
  rewrite Hecho, Hpass. reflexivity.
Qed.

Lemma respond_clear e m s :
  normalized (text m) = "/clear" ->
  respond e m s
  = fst (send_imessage (send_time e) (run e) (sender m) CLEARED_TEXT
           (emit (ClearCmd (rowid m)) (set_history (sender m) [] s))).
Proof.
  unfold normalized, respond. intros ->. reflexivity.
Qed.

Lemma respond_help e m s :
  normalized (text m) = "/help" ->
  respond e m s
  = fst (send_imessage (send_time e) (run e) (sender m) HELP_TEXT
           (emit (HelpCmd (rowid m)) s)).
Proof.
  unfold normalized, respond. intros ->. reflexivity.
Qed.

Lemma respond_chat e m s :
  normalized (text m) <> "/clear" ->
  normalized (text m) <> "/help" ->
  respond e m s
  = let g := get_ai_response (post e) (sender m) (text m)
               (emit (ChatMsg (rowid m)) s) in
    fst (send_imessage (send_time e) (run e) (sender m) (snd g) (fst g)).
Proof.
  unfold normalized, respond. intros Hc Hh.
  apply String.eqb_neq in Hc, Hh. rewrite Hc, Hh.
  by destruct (get_ai_response _ _ _ _).
Qed.

(** What [respond] does to the trace and to the loop's own fields. *)
Lemma respond_effect e m s :
  exists evs,
    trace (respond e m s) = trace s ++ evs
    /\ marked evs = [] /\ dispatched evs = [rowid m]
    /\ processed_messages (respond e m s) = processed_messages s
    /\ last_rowid (respond e m s) = last_rowid s.
Proof.
  destruct (decide (normalized (text m) = "/clear")) as [Hc | Hc].
  { rewrite (respond_clear _ _ _ Hc), send_imessage_state. simpl.
    eexists [_; _]. rewrite <- app_assoc. by repeat split. }
  destruct (decide (normalized (text m) = "/help")) as [Hh | Hh].
  { rewrite (respond_help _ _ _ Hh), send_imessage_state. simpl.
    eexists [_; _]. rewrite <- app_assoc. by repeat split. }
  rewrite (respond_chat _ _ _ Hc Hh). cbv zeta. rewrite send_imessage_state.
  pose proof (get_ai_response_frame (post e) (sender m) (text m)
                (emit (ChatMsg (rowid m)) s)) as (Hp & _ & _ & Hl).
  simpl in *. rewrite get_ai_response_trace, Hp, Hl. simpl.
  eexists [_; _; _]. rewrite <- !app_assoc. by repeat split.
Qed.

(** What handling a new entry does to the trace and to the loop's own
    fields: it is marked first, and at most one dispatch follows, of
    that very entry. *)
Lemma process_message_effect e m s :
  rowid m ∉ processed_messages s ->
  exists evs,
    trace (process_message e m s) = trace s ++ Marked (rowid m) :: evs
    /\ marked evs = []
    /\ (dispatched evs = [] \/ dispatched evs = [rowid m])
    /\ processed_messages (process_message e m s) = {[rowid m]} ∪ processed_messages s
    /\ last_rowid (process_message e m s) = Z.max (last_rowid s) (rowid m).
Proof.
  intros Hnew. unfold process_message. rewrite bool_decide_eq_false_2 by done.
  unfold is_our_sent_message.
  set (s0 := clean_old_sent_messages (check_time e) (mark (rowid m) s)).
  assert (Ht : trace s0 = trace s ++ [Marked (rowid m)]) by reflexivity.
  destruct (bool_decide _).
  { exists [SkippedOwn (rowid m)]. simpl. rewrite <- app_assoc. by repeat split; auto. }
  destruct (passes_filter _ _); simpl.
  - destruct (respond_effect e m s0) as (evs & Htr & Hm & Hd & Hp & Hl).
    exists evs. rewrite Htr, Ht, <- app_assoc, Hp, Hl. by repeat split; auto.
  - exists [Ignored (rowid m)]. rewrite <- app_assoc. by repeat split; auto.
Qed.

Lemma assistant_turns_length r : (length (assistant_turns r) <= 1)%nat.
Proof.
  destruct r as [code txt [ai|] | | |]; simpl; try lia.
  destruct (code =? 200)%Z; simpl; lia.
Qed.

Lemma assistant_turns_spec r ai :
  assistant_turns r = [mkTurn Assistant ai] <-> exists txt, r = Response 200 txt (Some ai).
Proof.
  split.
  - destruct r as [code txt [ai'|] | | |]; simpl; try discriminate.
    destruct (Z.eqb_spec code 200) as [-> | Hne]; [| discriminate].
    intros [= ->]. by exists txt.
  - intros [txt ->]. reflexivity.
Qed.

Lemma process_message_clear_history e m s :
  reaches_dispatch e m s = true ->
  normalized (text m) = "/clear" ->
  history (process_message e m s) (sender m) = [].
Proof.
  intros Hr Hc. rewrite (process_message_reached _ _ _ Hr), (respond_clear _ _ _ Hc).
  rewrite send_imessage_state. unfold history. simpl. by rewrite lookup_insert_eq.
Qed.

(** C1 (as amended). The user append of [get_ai_response] leaves at most [2 * MAX_HISTORY] turns, the most
    recent ones in their order (a suffix of the old history followed by
    the new user turn), and these are the history put in the request. The
    assistant append is not followed by an eviction: after it the history
    is that list with the assistant turn at its end, at most
    [2 * MAX_HISTORY + 1] turns. Handling an inbound "/clear" leaves the
    sender's history empty. *)
Theorem history_capped_at_request_and_cleared_by_command
    (r : post_result) (k : option string) (message : string) (s : state)
    (e : env) (m : msg) (s1 : state) :
  reaches_dispatch e m s1 = true ->
  normalized (text m) = "/clear" ->
  let kept := append_user (history s k) message in
  let s' := fst (get_ai_response r k message s) in
  (length kept <= MAX_HISTORY * 2)%nat
  /\ kept `suffix_of` (history s k ++ [mkTurn User message])
  /\ trace s' = trace s ++ [Post MODEL (SYSTEM_PROMPT :: kept)]
  /\ history s' k = kept ++ assistant_turns r
  /\ (length (history s' k) <= MAX_HISTORY * 2 + 1)%nat
  /\ history s' k `suffix_of`
       (history s k ++ [mkTurn User message] ++ assistant_turns r)
  /\ history (process_message e m s1) (sender m) = [].
Proof.
  intros Hr Hc kept s'. subst kept s'.
  split; [apply append_user_length |].
  split; [apply append_user_suffix |].
  split; [apply get_ai_response_trace |].
  rewrite get_ai_response_history.
  split; [reflexivity |].
  split.
  { rewrite length_app.
    pose proof (append_user_length (history s k) message).
    pose proof (assistant_turns_length r). lia. }
  split; [| by apply process_message_clear_history].
  rewrite app_assoc. apply suffix_app, append_user_suffix.
Qed.

(** C10 (as amended). [get_ai_response] appends the user turn, cut back to
    the last [2 * MAX_HISTORY] turns, before the request, which carries
    that list. An assistant turn is appended exactly when the backend
    answers with status 200 and a body whose content can be read; in
    every other case the text returned is one of the fixed replies and is
    not recorded, so the history after the call is the last
    [2 * MAX_HISTORY] turns of the old history followed by the user
    turn. *)
Theorem history_after_get_ai_response
    (r : post_result) (k : option string) (message : string) (s : state) :
  let before := history s k in
  let s' := fst (get_ai_response r k message s) in
  let reply := snd (get_ai_response r k message s) in
  let kept :=
    drop (length before + 1 - MAX_HISTORY * 2) (before ++ [mkTurn User message]) in
  trace s' = trace s ++ [Post MODEL (SYSTEM_PROMPT :: kept)]
  /\ last kept = Some (mkTurn User message)
  /\ ((exists txt, r = Response 200 txt (Some reply))
      /\ history s' k = kept ++ [mkTurn Assistant reply]
      \/
      (forall txt ai, r <> Response 200 txt (Some ai))
      /\ history s' k = kept
      /\ reply ∈ [API_ERROR_TEXT; NOT_RUNNING_TEXT; TOO_LONG_TEXT; WENT_WRONG_TEXT]).
Proof.
  intros before s' reply kept. subst before s' reply kept.
  rewrite <- append_user_drop.
  split; [apply get_ai_response_trace |].
  split.
  { destruct (append_user_suffix (history s k) message) as [pre Hpre].
    assert (Hne : append_user (history s k) message <> []).
    { rewrite append_user_drop. intros Hnil.
      apply (f_equal length) in Hnil. rewrite length_drop, length_app in Hnil.
      simpl in Hnil. unfold MAX_HISTORY in Hnil. lia. }
    destruct (append_user (history s k) message) as [|t l _] using rev_ind;
      [done |].
    rewrite app_assoc in Hpre. apply app_inj_tail in Hpre as [_ <-].
    apply last_snoc. }
  rewrite get_ai_response_history, get_ai_response_reply.
  destruct r as [code txt [ai'|] | | |]; simpl;
    try destruct (Z.eqb_spec code 200) as [-> | Hne]; simpl;
    rewrite ?app_nil_r;
    first [ left; split; [by eexists | reflexivity]
          | right; split; [congruence |]; split; [reflexivity |];
            set_solver ].
Qed.

(** ** Commands and backend failures *)

Lemma send_imessage_cache now r recipient message s :
  let s' := fst (send_imessage now r recipient message s) in
  sent_messages_with_time s'
  = sent_messages_with_time s ++ [(now, hash (normalized message))]
  /\ hash (normalized message) ∈ sent_messages s'.
Proof.
  cbv zeta. rewrite send_imessage_state. simpl. split; [reflexivity | set_solver].
Qed.

Lemma process_message_chat e m s :
  reaches_dispatch e m s = true ->
  normalized (text m) <> "/clear" ->
  normalized (text m) <> "/help" ->
  let s0 := dispatch_state e m s in
  let reply :=
    snd (get_ai_response (post e) (sender m) (text m) (emit (ChatMsg (rowid m)) s0)) in
  let s' := process_message e m s in
  trace s'
  = trace s ++ [Marked (rowid m); ChatMsg (rowid m);
                Post MODEL (SYSTEM_PROMPT :: append_user (history s (sender m)) (text m));
                Osascript (sender m) (escape reply)]
  /\ sent_messages_with_time s'
     = sent_messages_with_time s0 ++ [(send_time e, hash (normalized reply))]
  /\ hash (normalized reply) ∈ sent_messages s'.
Proof.
  intros Hr Hc Hh s0 reply s'. subst s0 reply s'.
  rewrite (process_message_reached _ _ _ Hr), (respond_chat _ _ _ Hc Hh). cbv zeta.
  set (s1 := emit (ChatMsg (rowid m)) (dispatch_state e m s)).
  pose proof (get_ai_response_frame (post e) (sender m) (text m) s1)
    as (_ & Hset & Hlist & _).
  pose proof (send_imessage_cache (send_time e) (run e) (sender m)
                (snd (get_ai_response (post e) (sender m) (text m) s1))
                (fst (get_ai_response (post e) (sender m) (text m) s1)))
    as [Hswt Hin].
  cbv zeta in *. split; [| split; [by rewrite Hswt, Hlist | exact Hin]].
  rewrite send_imessage_state. simpl. rewrite get_ai_response_trace.
  subst s1. simpl. rewrite <- !app_assoc. reflexivity.
Qed.

(** C7. For an entry that reaches the command tests, the trimmed,
    lower-cased text decides alone. Equal to "/clear": the sender's
    history is emptied, the confirmation is sent and its fingerprint
    recorded, and no request goes to the backend. Equal to "/help": the
    help text is sent, no request either. Anything else, however close
    to a command: the chat path, with a request carrying the history and
    the new user turn. *)
Theorem command_dispatch_is_exact_match (e : env) (m : msg) (s : state) :
  reaches_dispatch e m s = true ->
  let s0 := dispatch_state e m s in
  let s' := process_message e m s in
  if String.eqb (normalized (text m)) "/clear" then
    trace s' = trace s ++ [Marked (rowid m); ClearCmd (rowid m);
                           Osascript (sender m) (escape CLEARED_TEXT)]
    /\ history s' (sender m) = []
    /\ sent_messages_with_time s'
       = sent_messages_with_time s0 ++ [(send_time e, hash (normalized CLEARED_TEXT))]
    /\ hash (normalized CLEARED_TEXT) ∈ sent_messages s'
  else if String.eqb (normalized (text m)) "/help" then
    trace s' = trace s ++ [Marked (rowid m); HelpCmd (rowid m);
                           Osascript (sender m) (escape HELP_TEXT)]
    /\ history s' (sender m) = history s (sender m)
    /\ hash (normalized HELP_TEXT) ∈ sent_messages s'
  else
    exists reply,
      trace s' = trace s ++ [Marked (rowid m); ChatMsg (rowid m);
                             Post MODEL (SYSTEM_PROMPT
                                           :: append_user (history s (sender m)) (text m));
                             Osascript (sender m) (escape reply)]
      /\ hash (normalized reply) ∈ sent_messages s'.
Proof.
  intros Hr s0 s'. subst s0 s'.
  destruct (String.eqb_spec (normalized (text m)) "/clear") as [Hc | Hc].
  { split; [| split; [by apply process_message_clear_history |]].
    - rewrite (process_message_reached _ _ _ Hr), (respond_clear _ _ _ Hc).
      rewrite send_imessage_state. simpl. by rewrite <- !app_assoc.
    - rewrite (process_message_reached _ _ _ Hr), (respond_clear _ _ _ Hc).
      exact (send_imessage_cache (send_time e) (run e) (sender m) CLEARED_TEXT
               (emit (ClearCmd (rowid m))
                  (set_history (sender m) [] (dispatch_state e m s)))). }
  destruct (String.eqb_spec (normalized (text m)) "/help") as [Hh | Hh].
  { rewrite (process_message_reached _ _ _ Hr), (respond_help _ _ _ Hh).
    split; [| split].
    - rewrite send_imessage_state. simpl. by rewrite <- !app_assoc.
    - rewrite send_imessage_state. reflexivity.
    - apply send_imessage_cache. }
  destruct (process_message_chat e m s Hr Hc Hh) as (Ht & _ & Hin).
  eexists. split; [exact Ht | exact Hin].
Qed.

Lemma backend_failure_reply r k message s :
  backend_failure r = true -> snd (get_ai_response r k message s) = apology r.
Proof.
  rewrite get_ai_response_reply.
  destruct r as [code txt [ai|] | | |]; simpl; try done;
    destruct (code =? 200)%Z; done.
Qed.

(** C8. When the backend call fails (connection refused, timeout, or a
    status other than 200), [get_ai_response] returns the fixed text of
    that failure; the loop sends it to the sender, its fingerprint is in
    the cache afterwards, nothing but the user turn has entered the
    history, and the batch goes on with the next entry. *)
Theorem backend_failure_sends_fingerprinted_apology
    (es : nat -> env) (i : nat) (m : msg) (rest : list msg) (s : state) :
  reaches_dispatch (es i) m s = true ->
  normalized (text m) <> "/clear" ->
  normalized (text m) <> "/help" ->
  backend_failure (post (es i)) = true ->
  let sorry := apology (post (es i)) in
  let s' := process_message (es i) m s in
  (forall k message s1, snd (get_ai_response (post (es i)) k message s1) = sorry)
  /\ sorry ∈ [API_ERROR_TEXT; NOT_RUNNING_TEXT; TOO_LONG_TEXT]
  /\ trace s'
     = trace s ++ [Marked (rowid m); ChatMsg (rowid m);
                   Post MODEL (SYSTEM_PROMPT
                                 :: append_user (history s (sender m)) (text m));
                   Osascript (sender m) (escape sorry)]
  /\ sent_messages_with_time s'
     = sent_messages_with_time (dispatch_state (es i) m s)
       ++ [(send_time (es i), hash (normalized sorry))]
  /\ hash (normalized sorry) ∈ sent_messages s'
  /\ history s' (sender m) = append_user (history s (sender m)) (text m)
  /\ process_batch es i (m :: rest) s = process_batch es (S i) rest s'.
Proof.
  intros Hr Hc Hh Hf sorry s'. subst sorry s'.
  split; [intros; by apply backend_failure_reply |].
  split.
  { destruct (post (es i)) as [code txt body | | |]; simpl in *;
      [ | | | discriminate]; set_solver. }
  destruct (process_message_chat (es i) m s Hr Hc Hh) as (Ht & Hl & Hin).
  rewrite (backend_failure_reply _ _ _ _ Hf) in Ht, Hl, Hin.
  split; [exact Ht |]. split; [exact Hl |]. split; [exact Hin |].
  split; [| reflexivity].
  rewrite (process_message_reached _ _ _ Hr), (respond_chat _ _ _ Hc Hh). cbv zeta.
  rewrite send_imessage_state.
  change (history (emit ?ev (track_sent_message ?t ?msg ?x)) ?k) with (history x k).
  rewrite get_ai_response_history.
  replace (assistant_turns (post (es i))) with (@nil turn).
  - by rewrite app_nil_r.
  - destruct (post (es i)) as [code txt [ai|] | | |]; simpl in *; try done.
    by destruct (code =? 200)%Z.
Qed.

(** ** The loop *)

Lemma dispatched_app l1 l2 : dispatched (l1 ++ l2) = dispatched l1 ++ dispatched l2.
Proof. apply bind_app. Qed.

Lemma marked_app l1 l2 : marked (l1 ++ l2) = marked l1 ++ marked l2.
Proof. apply bind_app. Qed.

Lemma consistent_startup db0 : consistent (startup db0).
Proof.
  unfold consistent, startup; simpl. repeat split.
  - intros r Hr. by apply not_elem_of_empty in Hr.
  - intros r Hr. by apply elem_of_nil in Hr.
  - constructor.
Qed.

Lemma consistent_process_message e m s :
  consistent s -> consistent (process_message e m s).
Proof.
  intros (Hw & Hd & Hn).
  destruct (decide (rowid m ∈ processed_messages s)) as [Hin | Hnew].
  { rewrite process_message_seen by done. by repeat split. }
  destruct (process_message_effect e m s Hnew) as (evs & Ht & _ & Hevs & Hp & Hl).
  unfold consistent. rewrite Ht, Hp, Hl, dispatched_app.
  change (dispatched (Marked (rowid m) :: evs)) with (dispatched evs).
  split; [| split].
  - intros r [Hr | Hr]%elem_of_union.
    + apply elem_of_singleton in Hr as ->. lia.
    + apply Hw in Hr. lia.
  - intros r [Hr | Hr]%elem_of_app.
    + apply elem_of_union_r. by apply Hd.
    + apply elem_of_union_l, elem_of_singleton.
      destruct Hevs as [Hevs | Hevs]; rewrite Hevs in Hr.
      * by apply elem_of_nil in Hr.
      * by apply list_elem_of_singleton in Hr.
  - apply NoDup_app. split; [exact Hn |]. split.
    + intros r Hr Hr'. apply Hd in Hr.
      destruct Hevs as [Hevs | Hevs]; rewrite Hevs in Hr'.
      * by apply elem_of_nil in Hr'.
      * apply list_elem_of_singleton in Hr' as ->. by apply Hnew.
    + destruct Hevs as [-> | ->]; [constructor | apply NoDup_singleton].
Qed.

Lemma consistent_process_batch es batch : forall i s,
  consistent s -> consistent (process_batch es i batch s).
Proof.
  induction batch as [|m rest IH]; intros i s Hs; simpl; [exact Hs |].
  by apply IH, consistent_process_message.
Qed.

Lemma consistent_main_loop cycles : forall s,
  consistent s -> consistent (main_loop cycles s).
Proof.
  unfold main_loop. induction cycles as [|c cycles IH]; intros s Hs; simpl; [exact Hs |].
  by apply IH, consistent_process_batch.
Qed.

Lemma consistent_main db0 cycles : consistent (main db0 cycles).
Proof. apply consistent_main_loop, consistent_startup. Qed.

(** C3. In every state the loop can be in (any number of cycles, then any
    part of a batch), no row id has been dispatched twice, and every
    dispatched id is in [processed_messages]. An entry whose id is in the
    set is skipped without any effect; any other is added to the set
    before anything else happens to it, and at most one dispatch, of that
    entry, follows. *)
Theorem no_entry_dispatched_twice
    (db0 : option database) (cycles : list cycle)
    (es : nat -> env) (i : nat) (batch : list msg) (e : env) (m : msg) :
  let s := process_batch es i batch (main db0 cycles) in
  let s' := process_message e m s in
  NoDup (dispatched (trace s))
  /\ (forall r, r ∈ dispatched (trace s) -> r ∈ processed_messages s)
  /\ (if bool_decide (rowid m ∈ processed_messages s) then s' = s
      else exists evs,
          trace s' = trace s ++ Marked (rowid m) :: evs
          /\ (dispatched evs = [] \/ dispatched evs = [rowid m])
          /\ (rowid m ∉ dispatched (trace s))
          /\ (rowid m ∈ processed_messages s'))
  /\ NoDup (dispatched (trace s')).
Proof.
  intros s s'.
  assert (Hs : consistent s) by apply consistent_process_batch, consistent_main.
  assert (Hs' : consistent s') by by apply consistent_process_message.
  destruct Hs as (_ & Hd & Hn). destruct Hs' as (_ & _ & Hn').
  split; [exact Hn |]. split; [exact Hd |]. split; [| exact Hn'].
  case_bool_decide as Hin.
  - by apply process_message_seen.
  - destruct (process_message_effect e m s Hin) as (evs & Ht & _ & Hevs & Hp & _).
    exists evs. split; [exact Ht |]. split; [exact Hevs |].
    split; [intros Hr; by apply Hin, Hd |].
    unfold s'. rewrite Hp. by apply elem_of_union_l, elem_of_singleton.
Qed.

(** ** The batch and the watermark *)

#[local] Instance row_le_trans : Transitive row_le.
Proof. unfold row_le. intros a b c Hab Hbc. lia. Qed.

#[local] Instance row_le_total : Total row_le.
Proof. unfold row_le. intros a b. lia. Qed.

Lemma rowid_to_msg row : rowid (to_msg row) = m_ROWID row.1.1.
Proof. by destruct row as [[m h] c]. Qed.


(** WHERE m.ROWID > ? *)
Lemma get_recent_messages_above db since_rowid r :
  r ∈ rowid <$> get_recent_messages db since_rowid -> since_rowid < r.
Proof.
  destruct db as [db|]; simpl; [| by intros ?%elem_of_nil].
  change (map to_msg ?l) with (to_msg <$> l). rewrite <- list_fmap_compose.
  intros (row & -> & Hrow)%list_elem_of_fmap.
  apply subseteq_take in Hrow. rewrite merge_sort_Permutation in Hrow.
  apply list_elem_of_In, filter_In in Hrow as [_ Hw].
  unfold where_clause in Hw. rewrite !andb_true_iff in Hw.
  destruct Hw as [[Hlt _] _]. simpl. rewrite rowid_to_msg. lia.
Qed.

Lemma process_message_watermark e m s :
  consistent s ->
  last_rowid (process_message e m s) = Z.max (last_rowid s) (rowid m).
Proof.
  intros (Hw & _).
  destruct (decide (rowid m ∈ processed_messages s)) as [Hin | Hnew].
  - rewrite process_message_seen by done. apply Hw in Hin. lia.
  - by destruct (process_message_effect e m s Hnew) as (_ & _ & _ & _ & _ & ->).
Qed.

Lemma process_batch_watermark es batch : forall i s,
  consistent s ->
  last_rowid (process_batch es i batch s) = foldl Z.max (last_rowid s) (rowid <$> batch).
Proof.
  induction batch as [|m rest IH]; intros i s Hs; simpl; [reflexivity |].
  rewrite IH by by apply consistent_process_message.
  by rewrite process_message_watermark.
Qed.


Lemma last_rowid_process_message e m s :
  last_rowid s <= last_rowid (process_message e m s).
Proof.
  destruct (decide (rowid m ∈ processed_messages s)) as [Hin | Hnew].
  - by rewrite process_message_seen.
  - destruct (process_message_effect e m s Hnew) as (_ & _ & _ & _ & _ & ->). lia.
Qed.

Lemma last_rowid_process_batch es batch : forall i s,
  last_rowid s <= last_rowid (process_batch es i batch s).
Proof.
  induction batch as [|m rest IH]; intros i s; simpl; [lia |].
  etrans; [apply (last_rowid_process_message (es i) m) | apply IH].
Qed.

Lemma last_rowid_main_loop cycles : forall s,
  last_rowid s <= last_rowid (main_loop cycles s).
Proof.
  unfold main_loop. induction cycles as [|c cycles IH]; intros s; simpl; [lia |].
  etrans; [| apply IH]. apply last_rowid_process_batch.
Qed.

Lemma max_rowid_spec rows :
  match max_rowid rows with
  | Some w => w ∈ m_ROWID <$> rows /\ forall r, r ∈ m_ROWID <$> rows -> r <= w
  | None => rows = []
  end.
Proof.
  induction rows as [|m rows IH]; simpl; [reflexivity |].
  change (foldr _ None rows) with (max_rowid rows).
  destruct (max_rowid rows) as [w|].
  - destruct IH as [Hin Hle]. split.
    + destruct (Z.max_spec (m_ROWID m) w) as [[_ ->] | [_ ->]];
        [by right | by left].
    + intros r [-> | Hr]%elem_of_cons; [lia |]. apply Hle in Hr. lia.
  - subst rows. split; [by left |].
    intros r [-> | Hr]%elem_of_cons; [lia | by apply elem_of_nil in Hr].
Qed.


End Properties.

(** ** Worked examples *)

Section Examples.

Import Sample.

#[local] Existing Instance open_bot.

(** The history after the assistant append of an eleventh exchange: 21
    turns, one more than [2 * MAX_HISTORY]. *)
Lemma history_exceeds_cap_after_eleventh_reply :
  length (history
            (fst (@get_ai_response open_bot (Response 200 EmptyString (Some "hello!"))
                    friend "hi" after_ten_exchanges))
            friend) = 21%nat
  /\ (MAX_HISTORY * 2 < 21)%nat.
Proof. split; [vm_compute; reflexivity | unfold MAX_HISTORY; lia]. Qed.

Lemma clear_command_empties_history :
  (length (append_user (history after_ten_exchanges friend) "hi") <= MAX_HISTORY * 2)%nat
  /\ history (@process_message one_contact (refusing 0%nat) (entry 11 " /Clear ")
                after_ten_exchanges) friend = [].
Proof.
  assert (Hreach : @reaches_dispatch one_contact (refusing 0%nat) (entry 11 " /Clear ")
                     after_ten_exchanges = true) by (vm_compute; reflexivity).
  assert (Hclear : normalized (text (entry 11 " /Clear ")) = "/clear") by reflexivity.
  pose proof (@history_capped_at_request_and_cleared_by_command one_contact
                ConnectionError friend "hi" after_ten_exchanges
                (refusing 0%nat) (entry 11 " /Clear ") after_ten_exchanges
                Hreach Hclear) as H.
  cbv zeta in H. destruct H as (Hlen & _ & _ & _ & _ & _ & Hempty).
  split; [exact Hlen | exact Hempty].
Defined.

(** "Hi there!" sent at 0 and asked about at 5, after an unrelated lookup
    at 3. *)
Lemma echo_after_five_seconds :
  snd (@is_our_sent_message open_bot (0 + 5) " hi THERE! "
         (lookups [(3%Q, "something else")]
            (track_sent_message 0 "Hi there!" (startup None)))) = true
  <-> (5 < SENT_MESSAGE_EXPIRY)%Q.
Proof.
  apply fingerprint_suppresses_iff_within_ttl.
  - constructor.
  - constructor; [simpl; lra | constructor].
  - reflexivity.
Defined.

Example echo_skipped_then_answered :
  snd (@is_our_sent_message open_bot 5 "Hi there!"
         (track_sent_message 0 "Hi there!" (startup None))) = true
  /\ snd (@is_our_sent_message open_bot 65 "Hi there!"
            (track_sent_message 0 "Hi there!" (startup None))) = false.
Proof. split; vm_compute; reflexivity. Qed.

(** Two leading ['+'] are both removed by the code, one only by the
    specification's normal form. *)
Lemma double_plus_accepted_by_code_only :
  passes_filter ["1555"] (Some "++1555") = true
  /\ Spec.isAllowed (Some "++1555") ["1555"] = false.
Proof. split; reflexivity. Qed.

Lemma plus_form_accepted_against_plain_number :
  passes_filter ["14155551234"] (Some "+14155551234") = true
  /\ passes_filter ["+14155551234"] (Some "14155551234") = true.
Proof.
  pose proof (contact_filter_normalizes_all_leading_plus
                ["+14155551234"] (Some "14155551234") "friend@icloud.com"
                "14155551234" eq_refl eq_refl) as (_ & _ & Hplus & Hplain).
  split; [exact Hplus | exact Hplain].
Defined.



Lemma clear_command_trace :
  trace (@process_message one_contact (refusing 0%nat) (entry 11 " /Clear ")
           after_ten_exchanges)
  = trace after_ten_exchanges
    ++ [Marked 11; ClearCmd 11; Osascript friend (escape CLEARED_TEXT)].
Proof.
  assert (Hreach : @reaches_dispatch one_contact (refusing 0%nat) (entry 11 " /Clear ")
                     after_ten_exchanges = true) by (vm_compute; reflexivity).
  pose proof (@command_dispatch_is_exact_match one_contact (refusing 0%nat)
                (entry 11 " /Clear ") after_ten_exchanges Hreach) as H.
  cbv zeta in H.
  change (String.eqb (normalized (text (entry 11 " /Clear "))) "/clear") with true in H.
  exact (proj1 H).
Defined.

Lemma refused_connection_apology_fingerprinted :
  snd (@get_ai_response open_bot ConnectionError friend "hi" (startup None))
  = NOT_RUNNING_TEXT
  /\ @hash open_bot (normalized NOT_RUNNING_TEXT)
     ∈ sent_messages (@process_message open_bot (refusing 0%nat) (entry 11 "hi")
                        after_ten_exchanges)
  /\ @process_batch open_bot refusing 0 [entry 11 "hi"; entry 12 "hi"] after_ten_exchanges
     = @process_batch open_bot refusing 1 [entry 12 "hi"]
         (@process_message open_bot (refusing 0%nat) (entry 11 "hi") after_ten_exchanges).
Proof.
  assert (Hreach : @reaches_dispatch open_bot (refusing 0%nat) (entry 11 "hi")
                     after_ten_exchanges = true) by (vm_compute; reflexivity).
  assert (Hc : normalized (text (entry 11 "hi")) <> "/clear") by discriminate.
  assert (Hh : normalized (text (entry 11 "hi")) <> "/help") by discriminate.
  pose proof (@backend_failure_sends_fingerprinted_apology open_bot refusing 0%nat
                (entry 11 "hi") [entry 12 "hi"] after_ten_exchanges
                Hreach Hc Hh eq_refl) as H.
  cbv zeta in H. destruct H as (Hreply & _ & _ & _ & Hin & _ & Hnext).
  split; [apply Hreply | split; [exact Hin | exact Hnext]].
Defined.

Lemma timed_out_send_still_fingerprinted :
  snd (@send_imessage open_bot 0 TimeoutExpired friend "Hi there!" (startup None))
  = false
  /\ snd (@is_our_sent_message open_bot 5 "hi there! "
            (fst (@send_imessage open_bot 0 TimeoutExpired friend "Hi there!"
                    (startup None)))) = true.
Proof.
  assert (Hlt : (5 - 0 < SENT_MESSAGE_EXPIRY)%Q) by reflexivity.
  pose proof (@send_imessage_tracks_before_transport open_bot 0 5 TimeoutExpired
                friend "Hi there!" "hi there! " (startup None) eq_refl Hlt) as H.
  cbv zeta in H. destruct H as (_ & _ & _ & Hfalse & Hecho).
  split; [apply Hfalse; discriminate | exact Hecho].
Defined.

(** A failed call on a history of twenty turns drops the oldest turn; a
    200 answer without readable content adds no assistant turn. *)
Lemma failed_call_at_cap_drops_oldest_turn :
  history (fst (@get_ai_response open_bot ConnectionError friend "hi"
                  after_ten_exchanges)) friend
  <> history after_ten_exchanges friend ++ [mkTurn User "hi"]
  /\ history (fst (@get_ai_response open_bot (Response 200 "{}" None) friend "hi"
                     (startup None))) friend
     = [mkTurn User "hi"].
Proof.
  split; [| vm_compute; reflexivity].
  intros Heq. apply (f_equal length) in Heq. vm_compute in Heq. discriminate.
Qed.

(** The allow-list ["+14155551234"], an entry from 14155551234 saying
    "hello": the request carries the system turn and the user turn. *)
Example plain_number_reaches_backend :
  trace (@process_message one_contact (replying "hey" 0%nat)
           (mkMsg 1 "hello" 0 0 (Some "14155551234") None) (startup None))
  = [Marked 1; ChatMsg 1;
     Post "base" [SYSTEM_PROMPT; mkTurn User "hello"];
     Osascript (Some "14155551234") "hey"].
Proof. vm_compute. reflexivity. Qed.

(** A text that only begins like a command is ordinary chat. *)
Example command_prefix_is_chat :
  trace (@process_message one_contact (replying "hey" 0%nat)
           (entry 1 "/clear all") (startup None))
  = [Marked 1; ChatMsg 1;
     Post "base" [SYSTEM_PROMPT; mkTurn User "/clear all"];
     Osascript friend "hey"].
Proof. vm_compute. reflexivity. Qed.

End Examples.

(** * Further properties *)

(** ** Escaping for AppleScript *)

Section Escaping.

Context {P : Process}.

Lemma escape_cons a r : escape (String a r) = escape_char a +:+ escape r.
Proof.
  unfold escape, escape_char. simpl replace at 3.
  destruct (Ascii.eqb_spec a backslash) as [-> | Hb]; [reflexivity |].
  simpl replace at 2.
  destruct (Ascii.eqb_spec a dquote) as [-> | Hq]; [reflexivity |].
  simpl replace at 1.
  destruct (Ascii.eqb_spec a (ascii_of_nat 10)) as [-> | Hn]; reflexivity.
Qed.

(** X1. The three passes of [replace] act as one substitution per character:
    a backslash, a double quote and a line feed become a backslash
    followed by a backslash, a double quote and the letter n; any other
    character stays. The backslashes that the later passes insert are not
    escaped again. *)
Theorem escape_is_substitution_per_character (message : string) :
  escape message = foldr (fun c rest => escape_char c +:+ rest) EmptyString (chars message).
Proof.
  induction message as [|a r IH]; [reflexivity |].
  rewrite escape_cons, IH. reflexivity.
Qed.

Lemma escape_char_cases a :
  (a = backslash /\ escape_char a = String backslash (String backslash EmptyString))
  \/ (a = dquote /\ escape_char a = String backslash (String dquote EmptyString))
  \/ (a = ascii_of_nat 10 /\ escape_char a = String backslash "n")
  \/ (a <> backslash /\ a <> dquote /\ a <> ascii_of_nat 10
      /\ escape_char a = String a EmptyString).
Proof.
  unfold escape_char.
  destruct (Ascii.eqb_spec a backslash) as [-> | Hb]; [by left |].
  destruct (Ascii.eqb_spec a dquote) as [-> | Hq]; [by right; left |].
  destruct (Ascii.eqb_spec a (ascii_of_nat 10)) as [-> | Hn]; [by right; right; left |].
  by right; right; right.
Qed.

(** X2. Two messages with the same escaped form are the same message. *)
Theorem escape_injective (m1 m2 : string) : escape m1 = escape m2 -> m1 = m2.
Proof.
  revert m2. induction m1 as [|a1 r1 IH]; intros [|a2 r2].
  - reflexivity.
  - rewrite escape_cons.
    destruct (escape_char_cases a2) as [[_ ->] | [[_ ->] | [[_ ->] | (_ & _ & _ & ->)]]];
      discriminate.
  - rewrite escape_cons.
    destruct (escape_char_cases a1) as [[_ ->] | [[_ ->] | [[_ ->] | (_ & _ & _ & ->)]]];
      discriminate.
  - rewrite !escape_cons.
    destruct (escape_char_cases a1)
      as [[-> ->] | [[-> ->] | [[-> ->] | (Hb1 & Hq1 & Hn1 & ->)]]];
    destruct (escape_char_cases a2)
      as [[-> ->] | [[-> ->] | [[-> ->] | (Hb2 & Hq2 & Hn2 & ->)]]];
    simpl; intros Heq; inversion Heq; subst;
      try (f_equal; by apply IH); try congruence; try discriminate.
Qed.

Lemma append_String c s t : String c s +:+ t = String c (s +:+ t).
Proof. reflexivity. Qed.

Lemma append_Empty t : EmptyString +:+ t = t.
Proof. reflexivity. Qed.

(** X3. The escaped text has no line feed left, and as many characters as
    the message plus one for each escaped character. *)
Theorem escape_leaves_no_line_feed (message : string) :
  (ascii_of_nat 10 ∉ chars (escape message))
  /\ String.length (escape message)
     = (String.length message
        + length (List.filter (fun c => Ascii.eqb c backslash || Ascii.eqb c dquote
                                        || Ascii.eqb c (ascii_of_nat 10))
                    (chars message)))%nat.
Proof.
  induction message as [|a r [IHn IHl]]; [split; [apply not_elem_of_nil | reflexivity] |].
  rewrite escape_cons. cbn [chars List.filter String.length].
  destruct (escape_char_cases a)
    as [[-> ->] | [[-> ->] | [[-> ->] | (Hb & Hq & Hn & ->)]]];
    rewrite ?append_String, append_Empty; cbn [chars String.length].
  1-3: split;
    [ rewrite !not_elem_of_cons; split; [discriminate |]; split; [discriminate | exact IHn]
    | match goal with
      | |- context [if ?b then _ else _] =>
          let v := eval vm_compute in b in change b with v
      end; cbn [length]; rewrite IHl; lia ].
  - split.
    + rewrite not_elem_of_cons. split; [congruence | exact IHn].
    + apply Ascii.eqb_neq in Hb, Hq, Hn. rewrite Hb, Hq, Hn. cbn. rewrite IHl. lia.
Qed.

End Escaping.
(** ** Reading the store *)

Section Cursor.

Context {P : Process}.

#[local] Existing Instance row_le_trans.
#[local] Existing Instance row_le_total.

Lemma left_join_exists {A} (on : A -> bool) (table : list A) :
  exists x, x ∈ left_join on table.
Proof.
  unfold left_join. destruct (List.filter on table) as [|a rows].
  - exists None. by left.
  - exists (Some a). by left.
Qed.

Lemma joined_spec db m h c :
  (m, h, c) ∈ joined db -> m ∈ message db.
Proof.
  unfold joined. intros (m' & Hrow & Hm)%list_elem_of_bind.
  apply list_elem_of_bind in Hrow as (h' & Hrow & _).
  apply list_elem_of_bind in Hrow as (j' & Hrow & _).
  apply list_elem_of_bind in Hrow as (c' & Hrow & _).
  apply list_elem_of_singleton in Hrow. by inversion Hrow; subst.
Qed.

(** A LEFT JOIN drops no row of the left side. *)
Lemma joined_exists db m :
  m ∈ message db -> exists h c, (m, h, c) ∈ joined db.
Proof.
  intros Hm.
  destruct (left_join_exists
              (fun h => bool_decide (m_handle_id m = Some (h_ROWID h))) (handle db))
    as [h Hh].
  destruct (left_join_exists
              (fun j => (j_message_id j =? m_ROWID m)%Z) (chat_message_join db))
    as [j Hj].
  assert (Hc : exists c, c ∈ match j with
                            | Some j => left_join (fun c => (c_ROWID c =? j_chat_id j)%Z)
                                          (chat db)
                            | None => [None]
                            end).
  { destruct j as [j|]; [apply left_join_exists | exists None; by left]. }
  destruct Hc as [c Hc]. exists h, c. unfold joined.
  apply list_elem_of_bind. exists m. split; [| exact Hm].
  apply list_elem_of_bind. exists h. split; [| exact Hh].
  apply list_elem_of_bind. exists j. split; [| exact Hj].
  apply list_elem_of_bind. exists c. split; [| exact Hc].
  by apply list_elem_of_singleton.
Qed.

(** The rows behind a batch. *)
Lemma batch_rows db since_rowid m :
  m ∈ get_recent_messages (Some db) since_rowid ->
  exists row, m = to_msg row /\ row ∈ joined db /\ where_clause since_rowid row = true.
Proof.
  unfold get_recent_messages. change (map to_msg ?l) with (to_msg <$> l).
  intros (row & -> & Hrow)%list_elem_of_fmap. exists row. split; [reflexivity |].
  apply subseteq_take in Hrow. rewrite merge_sort_Permutation in Hrow.
  apply list_elem_of_In, filter_In in Hrow as [Hin Hw].
  split; [by apply list_elem_of_In | exact Hw].
Qed.

(** X4. A batch has at most 50 entries; each one comes from a row of
    [message] above the given ROWID, carries that row's text, which is
    not empty, and is inbound. A failed read gives no entry. *)
Theorem fetched_entries_are_new_inbound_texts
    (db : option database) (since_rowid : Z) :
  (length (get_recent_messages db since_rowid) <= 50)%nat
  /\ get_recent_messages None since_rowid = []
  /\ forall m, m ∈ get_recent_messages db since_rowid ->
       since_rowid < rowid m
       /\ text m <> EmptyString
       /\ is_from_me m = 0
       /\ exists d mr, db = Some d /\ mr ∈ message d
                       /\ m_ROWID mr = rowid m /\ m_text mr = Some (text m).
Proof.
  split; [| split; [reflexivity |]].
  - destruct db as [d|]; simpl; [| lia].
    rewrite length_map, length_take. lia.
  - intros m Hm. destruct db as [d|]; [| by apply elem_of_nil in Hm].
    apply batch_rows in Hm as ([[mr h] c] & -> & Hin & Hw).
    apply joined_spec in Hin. unfold where_clause in Hw. simpl in Hw.
    rewrite !andb_true_iff in Hw. destruct Hw as [[Hlt Htext] Hin0].
    apply Z.ltb_lt in Hlt. apply Z.eqb_eq in Hin0.
    destruct (m_text mr) as [t|] eqn:Ht; [| discriminate].
    simpl. rewrite Ht. simpl.
    split; [exact Hlt |]. split; [by destruct t |]. split; [exact Hin0 |].
    exists d, mr. by rewrite Ht.
Qed.

Lemma filter_none {A} (f : A -> bool) (l : list A) :
  (forall x, x ∈ l -> f x = false) -> List.filter f l = [].
Proof.
  induction l as [|a l IH]; intros Hall; simpl; [reflexivity |].
  rewrite (Hall a) by by left. apply IH. intros x Hx. apply Hall. by right.
Qed.

Lemma no_qualifying_row_no_batch d since_rowid :
  (forall mr, mr ∈ message d -> qualifies since_rowid mr = false) ->
  get_recent_messages (Some d) since_rowid = [].
Proof.
  intros Hall. unfold get_recent_messages. rewrite filter_none; [reflexivity |].
  intros [[mr h] c] Hrow. apply joined_spec in Hrow. by apply Hall.
Qed.

(** X5. A cycle whose read fails, or whose store has no row that the
    WHERE clause lets through above the watermark, changes nothing. *)
Theorem idle_cycle_changes_nothing (c : cycle) (s : state) :
  match snapshot c with
  | Some d => forall mr, mr ∈ message d -> qualifies (last_rowid s) mr = false
  | None => True
  end ->
  poll_cycle c s = s.
Proof.
  unfold poll_cycle. destruct (snapshot c) as [d|]; intros Hidle; [| reflexivity].
  by rewrite no_qualifying_row_no_batch.
Qed.

Lemma get_latest_rowid_bound d mr :
  mr ∈ message d -> m_ROWID mr <= get_latest_rowid (Some d).
Proof.
  intros Hmr. unfold get_latest_rowid.
  pose proof (max_rowid_spec (message d)) as Hmax.
  destruct (max_rowid (message d)) as [w|].
  - destruct Hmax as [_ Hle].
    assert (m_ROWID mr <= w) by (apply Hle, list_elem_of_fmap; by exists mr).
    destruct (Z.eqb_spec w 0); lia.
  - rewrite Hmax in Hmr. by apply elem_of_nil in Hmr.
Qed.

(** X6. After a startup whose read of the store succeeded, polling the
    same store handles nothing: the backlog is not replayed. *)
Theorem backlog_is_not_replayed (d : database) (es : nat -> env) :
  get_recent_messages (Some d) (last_rowid (startup (Some d))) = []
  /\ poll_cycle (mkCycle (Some d) es) (startup (Some d)) = startup (Some d).
Proof.
  assert (Hnone : forall mr, mr ∈ message d ->
                    qualifies (last_rowid (startup (Some d))) mr = false).
  { intros mr Hmr. apply get_latest_rowid_bound in Hmr.
    apply Z.ltb_ge in Hmr. unfold qualifies, where_clause.
    cbn [fst last_rowid startup]. by rewrite Hmr. }
  split; [by apply no_qualifying_row_no_batch |].
  unfold poll_cycle. simpl snapshot. by rewrite no_qualifying_row_no_batch.
Qed.

Lemma foldl_max_elem (l : list Z) : forall a, foldl Z.max a l ∈ a :: l.
Proof.
  induction l as [|x l IH]; intros a; simpl; [by left |].
  specialize (IH (Z.max a x)). apply elem_of_cons in IH as [-> | IH].
  - destruct (Z.max_spec a x) as [[_ ->] | [_ ->]]; [right |]; by left.
  - by do 2 right.
Qed.

Lemma process_batch_processed es batch : forall i s r,
  r ∈ processed_messages (process_batch es i batch s) <->
  r ∈ rowid <$> batch \/ r ∈ processed_messages s.
Proof.
  induction batch as [|m rest IH]; intros i s r; simpl.
  { split; [by right | intros [?%elem_of_nil | ?]; done]. }
  rewrite IH, elem_of_cons.
  destruct (decide (rowid m ∈ processed_messages s)) as [Hin | Hnew].
  - rewrite process_message_seen by done. split; [tauto |].
    intros [[-> | Hr] | Hr]; tauto.
  - destruct (process_message_effect (es i) m s Hnew) as (_ & _ & _ & _ & -> & _).
    rewrite elem_of_union, elem_of_singleton. tauto.
Qed.

(** Every qualifying row whose ROWID does not exceed an id of the batch is
    in the batch: LIMIT cuts the ascending list only at its end. *)
Lemma batch_complete d since_rowid mr y :
  mr ∈ message d ->
  qualifies since_rowid mr = true ->
  y ∈ rowid <$> get_recent_messages (Some d) since_rowid ->
  m_ROWID mr <= y ->
  m_ROWID mr ∈ rowid <$> get_recent_messages (Some d) since_rowid.
Proof.
  intros Hmr Hq Hy Hle. unfold get_recent_messages in *.
  set (rows := merge_sort row_le _) in *.
  change (map to_msg ?l) with (to_msg <$> l) in *.
  rewrite <- list_fmap_compose in *.
  destruct (joined_exists d mr Hmr) as (h & c & Hrow).
  assert (Hin : (mr, h, c) ∈ rows).
  { unfold rows. rewrite merge_sort_Permutation.
    apply list_elem_of_In, filter_In. split; [by apply list_elem_of_In | exact Hq]. }
  assert (Hsorted : StronglySorted row_le rows)
    by (apply StronglySorted_merge_sort; apply _).
  rewrite <- (take_drop 50 rows) in Hin, Hsorted.
  apply elem_of_app in Hin as [Hin | Hin].
  - apply list_elem_of_fmap. exists (mr, h, c). split; [reflexivity | exact Hin].
  - apply list_elem_of_fmap in Hy as (row & -> & Hrow').
    pose proof (StronglySorted_app_1_elem_of _ _ _ _ _ Hsorted Hrow' Hin) as Hord.
    unfold row_le in Hord. simpl in Hord, Hle. rewrite rowid_to_msg in Hle.
    apply list_elem_of_fmap. exists row. split; [| exact Hrow'].
    simpl. rewrite rowid_to_msg. lia.
Qed.

(** X7. The cursor skips no message: after a cycle, every row of the
    store that the WHERE clause lets through above the old watermark and
    whose ROWID is not above the new watermark is in
    [processed_messages]. *)
Theorem cursor_skips_no_message
    (db0 : option database) (cycles : list cycle) (c : cycle)
    (d : database) (mr : message_row) :
  let s := main db0 cycles in
  let s' := poll_cycle c s in
  snapshot c = Some d ->
  mr ∈ message d ->
  qualifies (last_rowid s) mr = true ->
  m_ROWID mr <= last_rowid s' ->
  m_ROWID mr ∈ processed_messages s'.
Proof.
  intros s s' Hsnap Hmr Hq Hle. subst s'. unfold poll_cycle in *. rewrite Hsnap in *.
  apply process_batch_processed. left.
  rewrite process_batch_watermark in Hle by apply consistent_main.
  pose proof (foldl_max_elem
                (rowid <$> get_recent_messages (Some d) (last_rowid s)) (last_rowid s))
    as Hmax.
  apply elem_of_cons in Hmax as [Hmax | Hmax].
  - rewrite Hmax in Hle. unfold qualifies, where_clause in Hq. simpl in Hq.
    rewrite !andb_true_iff in Hq. destruct Hq as [[Hlt _] _].
    apply Z.ltb_lt in Hlt. lia.
  - by apply (batch_complete d (last_rowid s) mr _ Hmr Hq Hmax).
Qed.

(** X8. No fetched entry is already in [processed_messages]: the query
    asks above the watermark, and the watermark bounds the processed
    ids. Only a row repeated inside one batch is ever skipped as seen. *)
Theorem fetched_entries_are_unprocessed
    (db0 : option database) (cycles : list cycle) (c : cycle) (m : msg) :
  let s := main db0 cycles in
  m ∈ get_recent_messages (snapshot c) (last_rowid s) ->
  rowid m ∉ processed_messages s.
Proof.
  intros s Hm Hin. subst s.
  destruct (consistent_main db0 cycles) as (Hw & _).
  apply Hw in Hin.
  assert (last_rowid (main db0 cycles) < rowid m)
    by (apply (get_recent_messages_above (snapshot c)), list_elem_of_fmap; by exists m).
  lia.
Qed.

End Cursor.
(** ** The cache over a run *)

Section Loop.

Context {P : Process}.

(** X9. A lookup at time [now] keeps of the cache exactly the entries
    younger than [SENT_MESSAGE_EXPIRY], in their order, rebuilds the set
    of hashes from them, and touches nothing else. *)
Theorem lookup_purges_expired_entries (now : Q) (message : string) (s : state) :
  let s' := fst (is_our_sent_message now message s) in
  (forall x, x ∈ sent_messages_with_time s' <->
             x ∈ sent_messages_with_time s /\ (now - fst x < SENT_MESSAGE_EXPIRY)%Q)
  /\ sent_messages_with_time s' `sublist_of` sent_messages_with_time s
  /\ cache_agrees s'
  /\ conversation_history s' = conversation_history s
  /\ processed_messages s' = processed_messages s
  /\ last_rowid s' = last_rowid s
  /\ trace s' = trace s.
Proof.
  cbv zeta.
  change (fst (is_our_sent_message now message s)) with (clean_old_sent_messages now s).
  split; [intros x; apply clean_entries |].
  split.
  { unfold clean_old_sent_messages. simpl.
    induction (sent_messages_with_time s) as [|a l IH]; simpl; [constructor |].
    destruct (Qltb _ _); [by apply sublist_skip | by apply sublist_cons]. }
  split; [| by repeat split].
  intros h. unfold clean_old_sent_messages. simpl.
  rewrite elem_of_list_to_set, list_elem_of_fmap. split.
  - intros [[ts h'] [-> Hin]]. by exists ts.
  - intros [ts Hin]. by exists (ts, h).
Qed.

Lemma cache_agrees_clean now s : cache_agrees (clean_old_sent_messages now s).
Proof.
  intros h. unfold clean_old_sent_messages. simpl.
  rewrite elem_of_list_to_set, list_elem_of_fmap. split.
  - intros [[ts h'] [-> Hin]]. by exists ts.
  - intros [ts Hin]. by exists (ts, h).
Qed.

Lemma cache_agrees_track now message s :
  cache_agrees s -> cache_agrees (track_sent_message now message s).
Proof.
  intros Hs h. unfold track_sent_message. simpl.
  rewrite elem_of_union, elem_of_singleton, (Hs h). split.
  - intros [-> | [ts Hin]].
    + exists now. apply elem_of_app. right. by apply list_elem_of_singleton.
    + exists ts. apply elem_of_app. by left.
  - intros [ts [Hin | Hin]%elem_of_app]; [right; by exists ts |].
    apply list_elem_of_singleton in Hin. inversion Hin. by left.
Qed.

(** [cache_agrees] only looks at the two cache fields. *)
Lemma cache_agrees_same s s' :
  sent_messages s' = sent_messages s ->
  sent_messages_with_time s' = sent_messages_with_time s ->
  cache_agrees s -> cache_agrees s'.
Proof. unfold cache_agrees. by intros -> ->. Qed.

Lemma cache_agrees_send now r to message s :
  cache_agrees s -> cache_agrees (fst (send_imessage now r to message s)).
Proof.
  intros Hs. rewrite send_imessage_state.
  apply (cache_agrees_same (track_sent_message now message s)); [done | done |].
  by apply cache_agrees_track.
Qed.

Lemma cache_agrees_respond e m s : cache_agrees s -> cache_agrees (respond e m s).
Proof.
  intros Hs.
  destruct (decide (normalized (text m) = "/clear")) as [Hc | Hc].
  { rewrite (respond_clear _ _ _ Hc). apply cache_agrees_send.
    by apply (cache_agrees_same s). }
  destruct (decide (normalized (text m) = "/help")) as [Hh | Hh].
  { rewrite (respond_help _ _ _ Hh). apply cache_agrees_send.
    by apply (cache_agrees_same s). }
  rewrite (respond_chat _ _ _ Hc Hh). cbv zeta. apply cache_agrees_send.
  pose proof (get_ai_response_frame (post e) (sender m) (text m)
                (emit (ChatMsg (rowid m)) s)) as (_ & Hset & Hlist & _).
  by apply (cache_agrees_same s).
Qed.

(** The body of the loop for an entry that is not yet processed. *)
Lemma process_message_new e m s :
  rowid m ∉ processed_messages s ->
  process_message e m s
  = if snd (is_our_sent_message (check_time e) (text m) s)
    then emit (SkippedOwn (rowid m)) (dispatch_state e m s)
    else if passes_filter ALLOWED_CONTACTS (sender m)
         then respond e m (dispatch_state e m s)
         else emit (Ignored (rowid m)) (dispatch_state e m s).
Proof.
  intros Hnew. unfold process_message. rewrite bool_decide_eq_false_2 by done.
  unfold is_our_sent_message, dispatch_state. simpl.
  change (sent_messages_with_time (mark (rowid m) s)) with (sent_messages_with_time s).
  destruct (bool_decide _); [reflexivity |].
  by destruct (passes_filter _ _).
Qed.

Lemma cache_agrees_process_message e m s :
  cache_agrees s -> cache_agrees (process_message e m s).
Proof.
  intros Hs.
  destruct (decide (rowid m ∈ processed_messages s)) as [Hin | Hnew].
  { by rewrite process_message_seen. }
  rewrite (process_message_new _ _ _ Hnew).
  assert (H0 : cache_agrees (dispatch_state e m s)) by apply cache_agrees_clean.
  destruct (snd _); [by apply (cache_agrees_same (dispatch_state e m s)) |].
  destruct (passes_filter _ _);
    [by apply cache_agrees_respond | by apply (cache_agrees_same (dispatch_state e m s))].
Qed.

Lemma cache_agrees_process_batch es batch : forall i s,
  cache_agrees s -> cache_agrees (process_batch es i batch s).
Proof.
  induction batch as [|m rest IH]; intros i s Hs; simpl; [exact Hs |].
  by apply IH, cache_agrees_process_message.
Qed.

Lemma cache_agrees_main_loop cycles : forall s,
  cache_agrees s -> cache_agrees (main_loop cycles s).
Proof.
  unfold main_loop. induction cycles as [|c cycles IH]; intros s Hs; simpl; [exact Hs |].
  by apply IH, cache_agrees_process_batch.
Qed.

(** X10. In every state of a run the set [sent_messages] holds exactly
    the hashes of the timed list [sent_messages_with_time]. *)
Theorem cache_set_and_list_agree_over_the_run
    (db0 : option database) (cycles : list cycle)
    (es : nat -> env) (i : nat) (batch : list msg) (h : Z) :
  let s := process_batch es i batch (main db0 cycles) in
  h ∈ sent_messages s <-> exists ts, (ts, h) ∈ sent_messages_with_time s.
Proof.
  cbv zeta. apply cache_agrees_process_batch, cache_agrees_main_loop.
  intros h'. simpl. split.
  - by intros ?%not_elem_of_empty.
  - by intros [ts ?%elem_of_nil].
Qed.

(** ** One entry, by outcome *)

(** X11. Loop safety: once a message has been sent, a new inbound entry
    with the same normalized text that is looked at before the expiry is
    skipped. It is marked as processed, nothing is sent, no request is
    made and no history changes. *)
Theorem own_reply_echo_is_skipped
    (now : Q) (r : run_result) (to : option string) (message : string)
    (s : state) (e : env) (m : msg) :
  let s1 := fst (send_imessage now r to message s) in
  rowid m ∉ processed_messages s ->
  normalized (text m) = normalized message ->
  (check_time e - now < SENT_MESSAGE_EXPIRY)%Q ->
  trace (process_message e m s1)
  = trace s1 ++ [Marked (rowid m); SkippedOwn (rowid m)]
  /\ (forall k, history (process_message e m s1) k = history s k)
  /\ rowid m ∈ processed_messages (process_message e m s1).
Proof.
  intros s1 Hnew Hnorm Hlt.
  assert (Hnew1 : rowid m ∉ processed_messages s1)
    by (subst s1; by rewrite send_imessage_state).
  assert (Hecho : snd (is_our_sent_message (check_time e) (text m) s1) = true).
  { apply is_our_sent_message_spec. exists now. split; [| exact Hlt].
    rewrite Hnorm. subst s1.
    destruct (send_imessage_cache now r to message s) as [-> _].
    apply elem_of_app. right. by apply list_elem_of_singleton. }
  rewrite (process_message_new _ _ _ Hnew1), Hecho.
  split; [simpl; by rewrite <- app_assoc |].
  split.
  - intros k. subst s1. by rewrite send_imessage_state.
  - simpl. apply elem_of_union_l. by apply elem_of_singleton.
Qed.

(** X12. An entry from a sender that the filter rejects is marked and
    ignored: nothing is sent or asked, no history changes, and of the
    cache only the expired entries go. *)
Theorem disallowed_sender_is_ignored (e : env) (m : msg) (s : state) :
  rowid m ∉ processed_messages s ->
  snd (is_our_sent_message (check_time e) (text m) s) = false ->
  passes_filter ALLOWED_CONTACTS (sender m) = false ->
  let s' := process_message e m s in
  trace s' = trace s ++ [Marked (rowid m); Ignored (rowid m)]
  /\ (forall k, history s' k = history s k)
  /\ (forall x, x ∈ sent_messages_with_time s' <->
                x ∈ sent_messages_with_time s
                /\ (check_time e - fst x < SENT_MESSAGE_EXPIRY)%Q)
  /\ rowid m ∈ processed_messages s'
  /\ last_rowid s' = Z.max (last_rowid s) (rowid m).
Proof.
  intros Hnew Hecho Hfilter s'. subst s'.
  rewrite (process_message_new _ _ _ Hnew), Hecho, Hfilter.
  split; [simpl; by rewrite <- app_assoc |].
  split; [reflexivity |].
  split; [intros x; apply (clean_entries (check_time e) (mark (rowid m) s)) |].
  split; [| reflexivity].
  simpl. apply elem_of_union_l. by apply elem_of_singleton.
Qed.

(** The history of [k] after [respond]. *)
Lemma respond_history e m s k :
  history (respond e m s) k
  = if decide (k = sender m) then
      if String.eqb (normalized (text m)) "/clear" then []
      else if String.eqb (normalized (text m)) "/help" then history s k
           else append_user (history s k) (text m) ++ assistant_turns (post e)
    else history s k.
Proof.
  destruct (String.eqb_spec (normalized (text m)) "/clear") as [Hc | Hc].
  { rewrite (respond_clear _ _ _ Hc), send_imessage_state.
    change (history (emit ?ev (track_sent_message ?t ?msg ?x)) k) with (history x k).
    change (history (emit ?ev ?x) k) with (history x k).
    destruct (decide (k = sender m)) as [-> | Hk].
    - apply history_set_history.
    - by apply history_set_history_ne. }
  destruct (String.eqb_spec (normalized (text m)) "/help") as [Hh | Hh].
  { rewrite (respond_help _ _ _ Hh), send_imessage_state.
    by destruct (decide (k = sender m)). }
  rewrite (respond_chat _ _ _ Hc Hh). cbv zeta. rewrite send_imessage_state.
  change (history (emit ?ev (track_sent_message ?t ?msg ?x)) k) with (history x k).
  destruct (decide (k = sender m)) as [-> | Hk].
  - by rewrite get_ai_response_history.
  - by rewrite get_ai_response_history_ne.
Qed.

(** X13. Handling an entry can change the history of its sender only,
    and only when the entry gets as far as the command tests. *)
Theorem other_histories_are_untouched
    (e : env) (m : msg) (s : state) (k : option string) :
  k <> sender m \/ reaches_dispatch e m s = false ->
  history (process_message e m s) k = history s k.
Proof.
  intros Hk.
  destruct (decide (rowid m ∈ processed_messages s)) as [Hin | Hnew].
  { by rewrite process_message_seen. }
  rewrite (process_message_new _ _ _ Hnew).
  destruct (snd (is_our_sent_message _ _ _)) eqn:Hecho; [reflexivity |].
  destruct (passes_filter _ _) eqn:Hpass; [| reflexivity].
  rewrite respond_history.
  destruct Hk as [Hk | Hk].
  - by destruct (decide (k = sender m)).
  - unfold reaches_dispatch in Hk.
    rewrite Hecho, Hpass, bool_decide_eq_false_2 in Hk by done. discriminate.
Qed.

Lemma histories_bounded_process_message e m s :
  histories_bounded s -> histories_bounded (process_message e m s).
Proof.
  intros Hs k. destruct (Hs k) as [Hlen Hroles].
  destruct (decide (rowid m ∈ processed_messages s)) as [Hin | Hnew].
  { by rewrite process_message_seen. }
  rewrite (process_message_new _ _ _ Hnew).
  destruct (snd (is_our_sent_message _ _ _)); [by split |].
  destruct (passes_filter _ _); [| by split].
  rewrite respond_history.
  change (history (dispatch_state e m s) k) with (history s k).
  destruct (decide (k = sender m)); [| by split].
  destruct (String.eqb _ _); [split; [simpl; lia | constructor] |].
  destruct (String.eqb _ _); [by split |].
  split.
  - rewrite length_app.
    pose proof (append_user_length (history s k) (text m)).
    pose proof (assistant_turns_length (post e)). lia.
  - apply Forall_app. split.
    + destruct (append_user_suffix (history s k) (text m)) as [pre Hpre].
      assert (Hall : Forall (fun t => role t <> System)
                       (history s k ++ [mkTurn User (text m)])).
      { apply Forall_app. split; [exact Hroles |]. by repeat constructor. }
      rewrite Hpre in Hall. by apply Forall_app in Hall as [_ Hall].
    + destruct (post e) as [code txt [ai|] | | |]; simpl; try constructor.
      destruct (code =? 200)%Z; by repeat constructor.
Qed.

Lemma histories_bounded_process_batch es batch : forall i s,
  histories_bounded s -> histories_bounded (process_batch es i batch s).
Proof.
  induction batch as [|m rest IH]; intros i s Hs; simpl; [exact Hs |].
  by apply IH, histories_bounded_process_message.
Qed.

Lemma histories_bounded_main_loop cycles : forall s,
  histories_bounded s -> histories_bounded (main_loop cycles s).
Proof.
  unfold main_loop. induction cycles as [|c cycles IH]; intros s Hs; simpl; [exact Hs |].
  by apply IH, histories_bounded_process_batch.
Qed.

(** X14. In every state of a run, the stored history of every
    correspondent has at most [2 * MAX_HISTORY + 1] turns and holds user
    and assistant turns only: the system turn is added to each request
    and never stored. *)
Theorem stored_histories_stay_bounded
    (db0 : option database) (cycles : list cycle)
    (es : nat -> env) (i : nat) (batch : list msg) (k : option string) :
  let s := process_batch es i batch (main db0 cycles) in
  (length (history s k) <= MAX_HISTORY * 2 + 1)%nat
  /\ Forall (fun t => role t <> System) (history s k).
Proof.
  cbv zeta. apply histories_bounded_process_batch, histories_bounded_main_loop.
  intros k'. unfold history, startup. simpl. rewrite lookup_empty. simpl.
  split; [lia | constructor].
Qed.

End Loop.
(** ** The trace over a run *)

Section Trace.

Context {P : Process}.

Lemma process_message_actions e m s :
  exists evs, trace (process_message e m s) = trace s ++ evs /\ entry_actions m evs.
Proof.
  destruct (decide (rowid m ∈ processed_messages s)) as [Hin | Hnew].
  { exists []. rewrite process_message_seen, app_nil_r by done.
    split; [done | apply actions_seen]. }
  rewrite (process_message_new _ _ _ Hnew).
  assert (Ht : trace (dispatch_state e m s) = trace s ++ [Marked (rowid m)])
    by reflexivity.
  destruct (snd (is_our_sent_message _ _ _)).
  { eexists. split; [| apply actions_echo].
    cbn [trace emit]. by rewrite Ht, <- app_assoc. }
  destruct (passes_filter _ _).
  2:{ eexists. split; [| apply actions_ignored].
      cbn [trace emit]. by rewrite Ht, <- app_assoc. }
  destruct (decide (normalized (text m) = "/clear")) as [Hc | Hc].
  { rewrite (respond_clear _ _ _ Hc), send_imessage_state.
    eexists. split; [| apply actions_clear].
    cbn [trace emit track_sent_message set_sent set_history].
    by rewrite Ht, <- !app_assoc. }
  destruct (decide (normalized (text m) = "/help")) as [Hh | Hh].
  { rewrite (respond_help _ _ _ Hh), send_imessage_state.
    eexists. split; [| apply actions_help].
    cbn [trace emit track_sent_message set_sent].
    by rewrite Ht, <- !app_assoc. }
  rewrite (respond_chat _ _ _ Hc Hh). cbv zeta. rewrite send_imessage_state.
  cbn [trace emit track_sent_message set_sent]. rewrite get_ai_response_trace.
  eexists. split; [| apply actions_chat].
  cbn [trace emit]. by rewrite Ht, <- !app_assoc.
Qed.

(** X15. A batch is handled entry by entry in its order, and each entry
    adds to the trace one of six action sequences: nothing (already
    processed), marked and skipped as echo, marked and ignored, marked
    and answered to "/clear" or to "/help" by one send, or marked and
    answered through one request and one send. *)
Theorem batch_trace_is_entry_by_entry
    (es : nat -> env) (i : nat) (batch : list msg) (s : state) :
  exists groups,
    trace (process_batch es i batch s) = trace s ++ concat groups
    /\ Forall2 entry_actions batch groups.
Proof.
  revert i s. induction batch as [|m rest IH]; intros i s; simpl.
  { exists []. rewrite app_nil_r. split; [done | constructor]. }
  destruct (process_message_actions (es i) m s) as (evs & Ht & Hevs).
  destruct (IH (S i) (process_message (es i) m s)) as (groups & Hts & Hgroups).
  exists (evs :: groups). split; [| by constructor].
  simpl. by rewrite Hts, Ht, <- app_assoc.
Qed.

Lemma sends_app l1 l2 : sends (l1 ++ l2) = sends l1 ++ sends l2.
Proof. apply bind_app. Qed.

Lemma posts_app l1 l2 : posts (l1 ++ l2) = posts l1 ++ posts l2.
Proof. apply bind_app. Qed.

Lemma chats_app l1 l2 : chats (l1 ++ l2) = chats l1 ++ chats l2.
Proof. apply bind_app. Qed.

(** What one entry adds to the counts. *)
Lemma entry_actions_counts m evs :
  entry_actions m evs ->
  length (sends evs) = length (dispatched evs)
  /\ length (posts evs) = length (chats evs)
  /\ (length (dispatched evs) <= length (marked evs) <= 1)%nat
  /\ (length (chats evs) <= length (dispatched evs))%nat.
Proof. destruct 1; simpl; lia. Qed.

Lemma counts_process_batch es batch : forall i s,
  let s' := process_batch es i batch s in
  exists evs,
    trace s' = trace s ++ evs
    /\ length (sends evs) = length (dispatched evs)
    /\ length (posts evs) = length (chats evs)
    /\ (length (chats evs) <= length (dispatched evs) <= length (marked evs))%nat
    /\ (length (marked evs) <= length batch)%nat.
Proof.
  induction batch as [|m rest IH]; intros i s; simpl.
  { exists []. rewrite app_nil_r. simpl. repeat split; lia. }
  destruct (process_message_actions (es i) m s) as (evs & Ht & Hevs).
  destruct (IH (S i) (process_message (es i) m s)) as (evs' & Ht' & H1 & H2 & H3 & H4).
  apply entry_actions_counts in Hevs as (E1 & E2 & E3 & E4).
  exists (evs ++ evs'). rewrite Ht', Ht, <- app_assoc.
  rewrite sends_app, dispatched_app, posts_app, chats_app, marked_app, !length_app.
  repeat split; lia.
Qed.

Lemma counts_main_loop cycles : forall s,
  exists evs,
    trace (main_loop cycles s) = trace s ++ evs
    /\ length (sends evs) = length (dispatched evs)
    /\ length (posts evs) = length (chats evs)
    /\ (length (chats evs) <= length (dispatched evs) <= length (marked evs))%nat.
Proof.
  unfold main_loop. induction cycles as [|c cycles IH]; intros s; simpl.
  { exists []. rewrite app_nil_r. simpl. repeat split; lia. }
  destruct (counts_process_batch (answers c)
              (get_recent_messages (snapshot c) (last_rowid s)) 0 s)
    as (evs & Ht & H1 & H2 & H3 & _).
  destruct (IH (poll_cycle c s)) as (evs' & Ht' & H1' & H2' & H3').
  exists (evs ++ evs'). unfold poll_cycle in *. rewrite Ht', Ht, <- app_assoc.
  rewrite sends_app, dispatched_app, posts_app, chats_app, marked_app, !length_app.
  repeat split; lia.
Qed.

(** X16. Over a whole run the bot runs [osascript] once for each
    dispatched entry and never otherwise, makes one backend request for
    each entry of the chat path and never otherwise, and dispatches no
    more entries than it has marked. *)
Theorem one_send_per_dispatched_entry
    (db0 : option database) (cycles : list cycle)
    (es : nat -> env) (i : nat) (batch : list msg) :
  let tr := trace (process_batch es i batch (main db0 cycles)) in
  length (sends tr) = length (dispatched tr)
  /\ length (posts tr) = length (chats tr)
  /\ (length (chats tr) <= length (dispatched tr) <= length (marked tr))%nat.
Proof.
  cbv zeta.
  destruct (counts_main_loop cycles (startup db0)) as (evs & Ht & H1 & H2 & H3).
  destruct (counts_process_batch es batch i (main db0 cycles))
    as (evs' & Ht' & H1' & H2' & H3' & _).
  cbv zeta in Ht'. rewrite Ht'. unfold main. rewrite Ht. simpl.
  rewrite sends_app, dispatched_app, posts_app, chats_app, marked_app, !length_app.
  repeat split; lia.
Qed.

Lemma marks_agree_process_message e m s :
  marks_agree s -> marks_agree (process_message e m s).
Proof.
  intros [Hiff Hnd].
  destruct (decide (rowid m ∈ processed_messages s)) as [Hin | Hnew].
  { by rewrite process_message_seen. }
  destruct (process_message_effect e m s Hnew) as (evs & Ht & Hm & _ & Hp & _).
  unfold marks_agree. rewrite Ht, Hp, marked_app.
  change (marked (Marked (rowid m) :: evs)) with (rowid m :: marked evs).
  rewrite Hm. split.
  - intros r. rewrite elem_of_union, elem_of_singleton, elem_of_app,
      list_elem_of_singleton, Hiff. tauto.
  - apply NoDup_app. split; [exact Hnd |]. split; [| apply NoDup_singleton].
    intros r Hr ->%list_elem_of_singleton. by apply Hnew, Hiff.
Qed.

Lemma marks_agree_process_batch es batch : forall i s,
  marks_agree s -> marks_agree (process_batch es i batch s).
Proof.
  induction batch as [|m rest IH]; intros i s Hs; simpl; [exact Hs |].
  by apply IH, marks_agree_process_message.
Qed.

Lemma marks_agree_main_loop cycles : forall s,
  marks_agree s -> marks_agree (main_loop cycles s).
Proof.
  unfold main_loop. induction cycles as [|c cycles IH]; intros s Hs; simpl; [exact Hs |].
  by apply IH, marks_agree_process_batch.
Qed.

(** X17. In every state of a run, [processed_messages] holds exactly the
    ids marked so far, no id has been marked twice, the watermark is at
    least every processed id, and it is at least the ROWID the run
    started from. *)
Theorem processed_ids_are_marked_once_below_watermark
    (db0 : option database) (cycles : list cycle)
    (es : nat -> env) (i : nat) (batch : list msg) (r : Z) :
  let s := process_batch es i batch (main db0 cycles) in
  (r ∈ processed_messages s <-> r ∈ marked (trace s))
  /\ NoDup (marked (trace s))
  /\ (r ∈ processed_messages s -> r <= last_rowid s)
  /\ get_latest_rowid db0 <= last_rowid s.
Proof.
  intros s.
  assert (Hm : marks_agree s).
  { apply marks_agree_process_batch, marks_agree_main_loop.
    split; [| constructor]. intros r'. simpl. split.
    - by intros ?%not_elem_of_empty.
    - by intros ?%elem_of_nil. }
  assert (Hc : consistent s) by apply consistent_process_batch, consistent_main.
  destruct Hm as [Hiff Hnd]. destruct Hc as (Hw & _).
  split; [apply Hiff |]. split; [exact Hnd |]. split; [apply Hw |].
  subst s. etrans; [| apply last_rowid_process_batch].
  apply (last_rowid_main_loop cycles (startup db0)).
Qed.

End Trace.
(** ** Further worked examples *)

Section MoreExamples.

Import Sample.

#[local] Existing Instance open_bot.

Lemma escape_injective_on_a_quoted_line :
  String dquote "a" = String dquote "a".
Proof.
  apply (escape_injective (String dquote "a") (String dquote "a")). reflexivity.
Defined.

Example escape_of_a_quoted_line :
  escape (String dquote ("a" +:+ nl +:+ String backslash EmptyString))
  = String backslash (String dquote ("a" +:+ String backslash "n"
                                     +:+ String backslash (String backslash EmptyString))).
Proof. vm_compute. reflexivity. Qed.

(** Every row of the store is an outbound message: nothing to fetch. *)
Lemma cycle_over_outbound_rows_is_idle :
  poll_cycle
    (mkCycle (Some (mkDatabase [mkMessageRow 11 (Some "hi") 1 0 (Some 1)] [] [] []))
       refusing)
    (startup None)
  = startup None.
Proof.
  apply idle_cycle_changes_nothing. cbn [snapshot message].
  intros mr Hmr. apply list_elem_of_singleton in Hmr. subst mr. reflexivity.
Defined.

(** Sixty rows wait in the store: the first cycle takes fifty, and row 37
    is among the processed ones. *)
Lemma row_below_new_watermark_is_processed :
  37 ∈ processed_messages
         (poll_cycle (mkCycle (Some (store 60 "hi")) (replying "hello!"))
            (main (Some (store 0 "hi")) [])).
Proof.
  apply (cursor_skips_no_message (Some (store 0 "hi")) []
           (mkCycle (Some (store 60 "hi")) (replying "hello!"))
           (store 60 "hi") (mkMessageRow 37 (Some "hi") 0 0 (Some 1))).
  - reflexivity.
  - vm_compute. do 36 right. left.
  - reflexivity.
  - vm_compute. discriminate.
Defined.

Lemma eleventh_row_is_unprocessed :
  rowid (entry 11 "hi") ∉ processed_messages after_ten_exchanges.
Proof.
  apply (fetched_entries_are_unprocessed (Some (store 0 "hi"))
           [mkCycle (Some (store 10 "hi")) (replying "hello!")]
           (mkCycle (Some (store 11 "hi")) refusing) (entry 11 "hi")).
  vm_compute. left.
Defined.

(** The reply "hello!" comes back as an inbound entry four seconds
    later. *)
Lemma echo_of_reply_is_skipped :
  trace (process_message (mkEnv 4 ConnectionError 4 Returned) (entry 2 " Hello! ")
           (fst (send_imessage 0 Returned friend "hello!" (startup None))))
  = trace (fst (send_imessage 0 Returned friend "hello!" (startup None)))
    ++ [Marked 2; SkippedOwn 2].
Proof.
  assert (Hnew : rowid (entry 2 " Hello! ") ∉ processed_messages (startup None))
    by apply not_elem_of_empty.
  assert (Hlt : (check_time (mkEnv 4 ConnectionError 4 Returned) - 0
                 < SENT_MESSAGE_EXPIRY)%Q) by reflexivity.
  exact (proj1 (own_reply_echo_is_skipped 0 Returned friend "hello!" (startup None)
                  (mkEnv 4 ConnectionError 4 Returned) (entry 2 " Hello! ")
                  Hnew eq_refl Hlt)).
Defined.

(** The bot answers +14155551234 only; an entry from someone else. *)
Lemma stranger_is_ignored :
  trace (@process_message one_contact (refusing 0%nat)
           (mkMsg 3 "hi" 0 0 (Some "stranger@icloud.com") None) (startup None))
  = [Marked 3; Ignored 3].
Proof.
  assert (Hnew : rowid (mkMsg 3 "hi" 0 0 (Some "stranger@icloud.com") None)
                 ∉ processed_messages (startup None))
    by apply not_elem_of_empty.
  exact (proj1 (@disallowed_sender_is_ignored one_contact (refusing 0%nat)
                  (mkMsg 3 "hi" 0 0 (Some "stranger@icloud.com") None) (startup None)
                  Hnew eq_refl eq_refl)).
Defined.

Lemma friend_history_survives_other_sender :
  history (process_message (replying "hey" 0%nat)
             (mkMsg 11 "hi" 0 0 (Some "other@icloud.com") None) after_ten_exchanges)
          friend
  = history after_ten_exchanges friend.
Proof.
  apply other_histories_are_untouched. left. discriminate.
Defined.

End MoreExamples.
